(** * legal-ai-service/main.py: the query-resolution pipeline

    A shallow embedding of [main.py]: the sanitizer, the session store
    ([ConversationState]), the follow-up classifier, the retriever, the answer
    generator, the case-law fetcher, the response composer and the
    [/process-query] handler, with the properties of the specification that can
    be settled on them.

    Python strings are sequences of Unicode code points: a character is its
    code point (an [N]) and a [str] is a list of them.  The three external
    capabilities (embedding + FAISS search, BART generation, the Selenium
    browser) are parameters of the development. *)

From Stdlib Require Import NArith Ascii String DecimalString.
From stdpp Require Import gmap list strings.

Open Scope N_scope.
Open Scope list_scope.

(** ** Strings *)

Abbreviation str := (list N).

(** A literal of the source, as code points (ASCII literals only). *)
Definition lit (s : string) : str := map N_of_ascii (list_ascii_of_string s).

(** [len(s)] *)
Definition len (s : str) : nat := length s.

(** Python's whitespace ([str.isspace], which [str.strip()] and the regular
    expression class [\s] on [str] patterns both use): U+0009..U+000D,
    U+001C..U+0020, U+0085, U+00A0, U+1680, U+2000..U+200A, U+2028, U+2029,
    U+202F, U+205F, U+3000. *)
Definition is_space (c : N) : bool :=
  ((9 <=? c) && (c <=? 13)) || ((28 <=? c) && (c <=? 32))
  || (c =? 133) || (c =? 160) || (c =? 5760)
  || ((8192 <=? c) && (c <=? 8202))
  || (c =? 8232) || (c =? 8233) || (c =? 8239) || (c =? 8287) || (c =? 12288).

(** [s.lstrip()] *)
Fixpoint lstrip (s : str) : str :=
  match s with
  | [] => []
  | c :: r => if is_space c then lstrip r else s
  end.

(** [s.rstrip()] *)
Fixpoint rstrip (s : str) : str :=
  match s with
  | [] => []
  | c :: r =>
      match rstrip r with
      | [] => if is_space c then [] else [c]
      | r' => c :: r'
      end
  end.

(** [s.strip()] *)
Definition strip (s : str) : str := rstrip (lstrip s).

(** [html.escape(s)] with its default [quote=True]: [&], [<], [>], the double
    quote and the single quote are replaced by their entities. *)
Definition escape_char (c : N) : str :=
  if c =? 38 then lit "&amp;"
  else if c =? 60 then lit "&lt;"
  else if c =? 62 then lit "&gt;"
  else if c =? 34 then lit "&quot;"
  else if c =? 39 then lit "&#x27;"
  else [c].

Fixpoint html_escape (s : str) : str :=
  match s with
  | [] => []
  | c :: r => escape_char c ++ html_escape r
  end.

(** [re.sub(r'\s+', ' ', s)]: every maximal run of whitespace becomes one
    space.  [in_run] tells that the previous character was whitespace. *)
Fixpoint collapse (in_run : bool) (s : str) : str :=
  match s with
  | [] => []
  | c :: r =>
      if is_space c
      then (if in_run then collapse true r else 32 :: collapse true r)
      else c :: collapse false r
  end.

Definition re_sub_spaces (s : str) : str := collapse false s.

(** [sanitize_query] (main.py, line 75). *)
Definition sanitize_query (query : str) : str :=
  let query := html_escape (strip query) in
  re_sub_spaces query.

(** The characters [html.escape] rewrites. *)
Definition html_special (c : N) : bool :=
  (c =? 38) || (c =? 60) || (c =? 62) || (c =? 34) || (c =? 39).

Definition html_free (s : str) : Prop := Forall (fun c => html_special c = false) s.

(** [sep.join(parts)] *)
Fixpoint join (sep : str) (parts : list str) : str :=
  match parts with
  | [] => []
  | [p] => p
  | p :: rest => p ++ sep ++ join sep rest
  end.

(** [s.split(sep)] for a one-character separator: never an empty list. *)
Fixpoint split_on (sep : N) (s : str) : list str :=
  match s with
  | [] => [[]]
  | c :: r =>
      if c =? sep then [] :: split_on sep r
      else match split_on sep r with
           | [] => [[c]]
           | h :: t => (c :: h) :: t
           end
  end.

(** The line feed of the source's ['\n']. *)
Definition nl : str := [10].

(** [[line.strip() for line in text.split('\n') if line.strip()]] *)
Definition stripped_lines (text : str) : list str :=
  map strip (filter (fun line => strip line <> []) (split_on 10 text)).

(** [s.startswith(p)] and [needle in hay] on strings. *)
Fixpoint starts_with (p s : str) : bool :=
  match p, s with
  | [], _ => true
  | _ :: _, [] => false
  | a :: p', b :: s' => (a =? b) && starts_with p' s'
  end.

Fixpoint contains (needle hay : str) : bool :=
  starts_with needle hay
  || match hay with
     | [] => false
     | _ :: r => contains needle r
     end.

(** ** Data model *)

(** An entry of [section_data], the corpus loaded at start-up. *)
Record SectionRecord := {
  sd_act : str;
  sd_section_number : str;
  sd_full_text : str
}.

(** What [find_relevant_sections] yields per hit; the score is a float of the
    index and stays opaque. *)
Record RetrievedSection {Score : Type} := {
  rs_act : str;
  rs_section_number : str;
  rs_text : str;
  rs_score : Score
}.
Arguments RetrievedSection : clear implicits.

Record Reference := {
  ref_act : str;
  ref_section_number : str;
  ref_summary : str;
  ref_full_text : str
}.

(** A result link as the browser gives it: [r.text] and
    [r.get_attribute("href")], which is [None] when the attribute is absent. *)
Record Anchor := {
  a_text : str;
  a_href : option str
}.

Record Case := {
  title : str;
  url : option str
}.

Record TurnContext := {
  ctx_query : str;
  ctx_answer : str;
  ctx_references : list Reference;
  ctx_cases : list Case
}.

Inductive role := user | assistant.

(** A session dictionary: [references] and [cases] are [None] until the first
    [update]. *)
Record Session := {
  current_context : option TurnContext;
  references : option (list Reference);
  cases : option (list Case);
  history : list (role * str)
}.

(** The dictionary [get_session] creates (main.py, lines 52-57). *)
Definition fresh_session : Session :=
  {| current_context := None; references := None; cases := None; history := [] |}.

Record ProcessQueryRequest := {
  req_query : str;
  req_session_id : str
}.

Record ResponseModel := {
  answer : str;
  resp_references : list Reference;
  resp_cases : list Case;
  resp_is_follow_up : bool;
  resp_session_id : str
}.

(** Exceptions: FastAPI's [HTTPException], a subclass of [Exception], and any
    other [Exception] with the text [str(e)] gives for it. *)
Inductive exn :=
| HTTPException (status_code : nat) (detail : str)
| Error (message : str).

Inductive result (A : Type) :=
| Ok (a : A)
| Raise (e : exn).
Arguments Ok {A} a.
Arguments Raise {A} e.

(** A call to an external capability, as it is logged in the state. *)
Inductive Call :=
| CallSearch (query : str) (k : nat)
| CallGenerate (input_text : str) (max_length : nat)
| CallBrowser (query : str).

(** The external capabilities and library functions the service is built on.
    Each capability reads and advances an opaque [World] (model weights,
    network, clock), so that two calls on one input may answer differently,
    and may raise. *)
Class Capabilities := {
  World : Type;
  Score : Type;
  (** [section_data] of the pickled corpus. *)
  section_data : list SectionRecord;
  (** [model.encode([query])] then [index.search(_, k)]: the rows [D[0]] and
      [I[0]]. *)
  index_search : World -> str -> nat -> result (list Score * list Z) * World;
  (** The body of [generate_with_bart]'s [try]: tokenize, generate, decode. *)
  bart_generate : World -> str -> nat -> result str * World;
  (** The browser session inside the [try] of [fetch_kanoon_results] (start
      the driver, open the site, submit the query, wait): the anchors matched
      by [div.result_title > a].  Building the options before the [try] and
      [driver.quit()] in the [finally] are taken not to raise. *)
  kanoon_search : World -> str -> result (list Anchor) * World;
  (** [str.lower()], the interpreter's Unicode lower-casing. *)
  lower : str -> str;
  (** [str(e)] for an [HTTPException] of the framework. *)
  http_exception_str : nat -> str -> str
}.

(** The HTTP status a handler's outcome is answered with: 200 for a response,
    the exception's own status for an [HTTPException], 500 for any other
    exception that escapes. *)
Definition http_status {A} (r : result A) : nat :=
  match r with
  | Ok _ => 200%nat
  | Raise (HTTPException sc _) => sc
  | Raise (Error _) => 500%nat
  end.

(** [str(None)] where an f-string formats an absent attribute. *)
Definition format_optional (o : option str) : str :=
  match o with
  | Some s => s
  | None => lit "None"
  end.

(** A natural number as an f-string or an error message writes it. *)
Definition decimal (n : nat) : str := lit (NilEmpty.string_of_uint (Nat.to_uint n)).

(** [l[i]] on a Python list: a negative index counts from the end, and an
    index out of range raises [IndexError]. *)
Definition py_getitem {A} (l : list A) (i : Z) : result A :=
  let n := Z.of_nat (length l) in
  let j := if (i <? 0)%Z then (i + n)%Z else i in
  if ((0 <=? j) && (j <? n))%Z
  then match l !! Z.to_nat j with
       | Some x => Ok x
       | None => Raise (Error (lit "list index out of range"))
       end
  else Raise (Error (lit "list index out of range")).

(** ** The service *)

Section Service.
Context `{caps : Capabilities}.

(** The process-wide state: [conv_state.sessions], the world the capabilities
    act on, and the log of capability calls made so far. *)
Record State := {
  sessions : gmap str Session;
  world : World;
  calls : list Call
}.

Definition set_sessions (m : gmap str Session) (st : State) : State :=
  {| sessions := m; world := world st; calls := calls st |}.

Definition after_call (c : Call) (w : World) (st : State) : State :=
  {| sessions := sessions st; world := w; calls := calls st ++ [c] |}.

(** Computations of the service: they read and write the state and either
    return or raise; what was written before a [raise] stays written. *)
Definition M (A : Type) : Type := State -> result A * State.

Definition ret {A} (a : A) : M A := fun st => (Ok a, st).

Definition raise {A} (e : exn) : M A := fun st => (Raise e, st).

Definition bind {A B} (m : M A) (k : A -> M B) : M B := fun st =>
  match m st with
  | (Ok a, st') => k a st'
  | (Raise e, st') => (Raise e, st')
  end.

(** [try: body  except Exception as e: handler(e)] *)
Definition try_except {A} (body : M A) (handler : exn -> M A) : M A := fun st =>
  match body st with
  | (Ok a, st') => (Ok a, st')
  | (Raise e, st') => handler e st'
  end.

(** A pure computation that may raise. *)
Definition lift {A} (r : result A) : M A := fun st => (r, st).

#[local] Notation "x <- m ;; k" := (bind m (fun x => k))
  (at level 100, m at next level, right associativity).

(** [str(e)] *)
Definition exn_str (e : exn) : str :=
  match e with
  | HTTPException sc d => http_exception_str sc d
  | Error m => m
  end.

(** *** Session store: [ConversationState] *)

(** [get_session] (line 50): the entry of [session_id], created when absent. *)
Definition get_session (session_id : str) : M Session := fun st =>
  match sessions st !! session_id with
  | Some s => (Ok s, st)
  | None => (Ok fresh_session, set_sessions (<[session_id := fresh_session]> (sessions st)) st)
  end.

(** The assignments of [update] to the dictionary held under [session_id]. *)
Definition store_session (session_id : str) (s : Session) : M unit := fun st =>
  (Ok tt, set_sessions (<[session_id := s]> (sessions st)) st).

(** [update] (line 60). *)
Definition update (session_id query answer : str)
    (refs : list Reference) (cs : list Case) : M unit :=
  session <- get_session session_id ;;
  store_session session_id
    {| current_context := Some {| ctx_query := query; ctx_answer := answer;
                                  ctx_references := refs; ctx_cases := cs |};
       references := Some refs;
       cases := Some cs;
       history := history session ++ [(user, query); (assistant, answer)] |}.

(** *** Capability calls, logged *)

Definition call_search (query : str) (k : nat) : M (list Score * list Z) := fun st =>
  let '(r, w) := index_search (world st) query k in
  (r, after_call (CallSearch query k) w st).

Definition call_generate (input_text : str) (max_length : nat) : M str := fun st =>
  let '(r, w) := bart_generate (world st) input_text max_length in
  (r, after_call (CallGenerate input_text max_length) w st).

Definition call_browser (query : str) : M (list Anchor) := fun st =>
  let '(r, w) := kanoon_search (world st) query in
  (r, after_call (CallBrowser query) w st).

(** *** Retriever *)

(** The comprehension of [find_relevant_sections]: for the [i]-th entry [idx]
    of [I[0]], look up [section_data[idx]], then [D[0][i]], which raises
    numpy's [IndexError] when the row [D[0]] is too short. *)
Fixpoint collect_sections (D0 : list Score) (i : nat) (I0 : list Z)
    : result (list (RetrievedSection Score)) :=
  match I0 with
  | [] => Ok []
  | idx :: rest =>
      match py_getitem section_data idx with
      | Raise e => Raise e
      | Ok sd =>
          match D0 !! i with
          | None =>
              Raise (Error (lit "index " ++ decimal i
                            ++ lit " is out of bounds for axis 0 with size "
                            ++ decimal (length D0)))
          | Some score =>
              match collect_sections D0 (S i) rest with
              | Raise e => Raise e
              | Ok tl =>
                  Ok ({| rs_act := sd_act sd;
                         rs_section_number := sd_section_number sd;
                         rs_text := sd_full_text sd;
                         rs_score := score |} :: tl)
              end
          end
      end
  end.

(** [find_relevant_sections] (line 79). *)
Definition find_relevant_sections (query : str) (k : nat)
    : M (list (RetrievedSection Score)) :=
  DI <- call_search query k ;;
  lift (collect_sections (fst DI) 0 (snd DI)).

(** *** Answer generator *)

(** [generate_with_bart] (line 89): any exception of the generation is caught
    and turned into the empty string. *)
Definition generate_with_bart (input_text : str) (max_length : nat) : M str :=
  try_except (call_generate input_text max_length) (fun _ => ret []).

(** The [input_text] of [generate_direct_answer]: the context is used when it
    is not the empty string. *)
Definition direct_answer_input (query context : str) : str :=
  match context with
  | _ :: _ => lit "Generate 3 legal steps for: " ++ query ++ lit ". Context: " ++ context
  | [] => lit "Legal steps for: " ++ query
  end.

(** [generate_direct_answer] (line 110). *)
Definition generate_direct_answer (query context : str) : M str :=
  steps <- generate_with_bart (direct_answer_input query context) 200 ;;
  ret (match steps with
       | _ :: _ => steps
       | [] => lit "Immediate legal steps:"
       end).

(** [generate_legal_analysis] (line 115); the dictionary [{'summary': _}] is
    its one value. *)
Definition generate_legal_analysis (text act_name section_number : str) : M str :=
  let input_text :=
    lit "Explain in one line: " ++ act_name ++ lit " Section " ++ section_number
    ++ lit " - " ++ take 1000 text in
  generate_with_bart input_text 100.

(** *** Case-law fetcher *)

(** [fetch_kanoon_results] (line 120): the first [max_results] anchors, each
    title cut to 80 characters; any exception gives the empty list. *)
Definition fetch_kanoon_results (query : str) (max_results : nat) : M (list Case) :=
  try_except
    (anchors <- call_browser query ;;
     ret (map (fun r => {| title := take 80 (a_text r); url := a_href r |})
              (take max_results anchors)))
    (fun _ => ret []).

(** *** Follow-up classifier *)

Definition follow_up_indicators : list str :=
  [lit "follow up"; lit "previous"; lit "explain"; lit "more info"; lit "about that"].

(** [is_follow_up] (line 140). *)
Definition is_follow_up (query : str) (session : Session) : bool :=
  match current_context session with
  | None => false
  | Some _ => existsb (fun indicator => contains indicator (lower query)) follow_up_indicators
  end.

(** *** Response composer *)

(** The section headers of [format_response]; their pictographs are the code
    points U+1F6A8, U+2696 U+FE0F, U+1F4CC and U+1F517. *)
Definition steps_header : str := [128680] ++ lit " Immediate Steps:" ++ nl.
Definition provisions_header : str := nl ++ nl ++ [9878; 65039] ++ lit " Relevant Provisions:".
Definition recommendations_header : str := nl ++ nl ++ [128204] ++ lit " Key Recommendations:".
Definition cases_header : str := nl ++ nl ++ [128279] ++ lit " Related Cases:".

(** One line of each loop of [format_response]. *)
Definition provision_line (ref : Reference) : str :=
  nl ++ lit "- " ++ ref_act ref ++ lit " Sec " ++ ref_section_number ref
  ++ lit ": " ++ ref_summary ref.

Definition recommendation_line (rec : str) : str := nl ++ lit "- " ++ rec.

Definition case_line (case : Case) : str :=
  nl ++ lit "- " ++ take 50 (title case) ++ lit " (" ++ format_optional (url case) ++ lit ")".

(** [for x in xs: response += line(x)] *)
Definition append_lines {A} (line : A -> str) (response : str) (xs : list A) : str :=
  foldl (fun response x => response ++ line x) response xs.

(** [format_response] (line 149). *)
Definition format_response (base_answer : str)
    (refs : list Reference) (cs : list Case) : M str :=
  let steps := stripped_lines base_answer in
  let response :=
    steps_header ++ join nl (map (fun step => lit "- " ++ step) (take 3 steps)) in
  let response := response ++ provisions_header in
  let response := append_lines provision_line response (take 3 refs) in
  rec_text <- generate_with_bart (lit "Generate 3 legal recommendations: " ++ base_answer) 150 ;;
  let recommendations := stripped_lines rec_text in
  let response := response ++ recommendations_header in
  let response := append_lines recommendation_line response (take 3 recommendations) in
  let response :=
    match cs with
    | _ :: _ => append_lines case_line (response ++ cases_header) (take 2 cs)
    | [] => response
    end in
  ret response.

(** *** The handler of [POST /process-query] *)

(** The loop of lines 229-236 over [sections[:2]]. *)
Fixpoint build_references (sections : list (RetrievedSection Score)) : M (list Reference) :=
  match sections with
  | [] => ret []
  | s :: rest =>
      summary <- generate_legal_analysis (rs_text s) (rs_act s) (rs_section_number s) ;;
      refs <- build_references rest ;;
      ret ({| ref_act := rs_act s;
              ref_section_number := rs_section_number s;
              ref_summary := summary;
              ref_full_text := take 300 (rs_text s) ++ lit "..." |} :: refs)
  end.

(** Subscripting [session['current_context']] when it is [None] is a
    [TypeError]. *)
Definition subscript_context (session : Session) : result TurnContext :=
  match current_context session with
  | Some ctx => Ok ctx
  | None => Raise (Error (lit "'NoneType' object is not subscriptable"))
  end.

(** [ResponseModel(...)] validates its list fields: [None] is refused. *)
Definition validate_list {A} (field : option (list A)) : result (list A) :=
  match field with
  | Some l => Ok l
  | None => Raise (Error (lit "validation error for ResponseModel"))
  end.

(** The body of the handler's [try] (lines 199-249). *)
Definition process_legal_query_body (request : ProcessQueryRequest) : M ResponseModel :=
  session <- get_session (req_session_id request) ;;
  let query := sanitize_query (req_query request) in
  if (len query <? 3)%nat
  then raise (HTTPException 400 (lit "Please ask a more detailed question."))
  else if is_follow_up query session
  then
    ctx <- lift (subscript_context session) ;;
    let context := join nl [lit "Previous: " ++ ctx_query ctx; lit "Answer: " ++ ctx_answer ctx] in
    answer <- generate_direct_answer query context ;;
    refs <- lift (validate_list (references session)) ;;
    cs <- lift (validate_list (cases session)) ;;
    ret {| answer := answer; resp_references := refs; resp_cases := cs;
           resp_is_follow_up := true; resp_session_id := req_session_id request |}
  else
    sections <- find_relevant_sections query 5 ;;
    match sections with
    | [] => raise (HTTPException 404 (lit "No relevant laws found"))
    | _ :: _ =>
        let context :=
          join nl (map (fun s => rs_act s ++ lit " Section " ++ rs_section_number s
                                 ++ lit ": " ++ rs_text s) (take 2 sections)) in
        base_answer <- generate_direct_answer query context ;;
        refs <- build_references (take 2 sections) ;;
        cs <- fetch_kanoon_results query 3 ;;
        formatted_answer <- format_response base_answer refs cs ;;
        _ <- update (req_session_id request) query formatted_answer refs cs ;;
        ret {| answer := formatted_answer; resp_references := refs; resp_cases := cs;
               resp_is_follow_up := false; resp_session_id := req_session_id request |}
    end.

(** [process_legal_query] (line 197): the body under
    [except Exception as e: raise HTTPException(status_code=500, detail=str(e))]. *)
Definition process_legal_query (request : ProcessQueryRequest) : M ResponseModel :=
  try_except (process_legal_query_body request)
             (fun e => raise (HTTPException 500 (exn_str e))).

End Service.

(** ** A concrete instance, used to run the service on examples *)

Module Demo.

(** Lower-casing of the ASCII letters. *)
Definition ascii_lower (s : str) : str :=
  map (fun c => if (65 <=? c) && (c <=? 90) then c + 32 else c) s.

Definition corpus : list SectionRecord :=
  [ {| sd_act := lit "Motor Vehicles Act"; sd_section_number := lit "134";
       sd_full_text := lit "Duty of driver in case of accident and injury to a person." |};
    {| sd_act := lit "Indian Penal Code"; sd_section_number := lit "279";
       sd_full_text := lit "Rash driving or riding on a public way." |} ].

(** [str(e)] of an [HTTPException] as Starlette writes it:
    [f"{status_code}: {detail}"]. *)
Definition status_and_detail (status_code : nat) (detail : str) : str :=
  lit (NilEmpty.string_of_uint (Nat.to_uint status_code)) ++ lit ": " ++ detail.

(** Capabilities that answer every call with a fixed outcome; the world counts
    the calls. *)
Definition fixed (search : result (list nat * list Z)) (generated : result str)
    (anchors : result (list Anchor)) : Capabilities :=
  {| World := nat;
     Score := nat;
     section_data := corpus;
     index_search := fun w _ _ => (search, S w);
     bart_generate := fun w _ _ => (generated, S w);
     kanoon_search := fun w _ => (anchors, S w);
     lower := ascii_lower;
     http_exception_str := status_and_detail |}.

(** The state of a process that has served nothing yet. *)
Definition initial (caps : Capabilities) (w : World) : State :=
  {| sessions := ∅; world := w; calls := [] |}.

(** A result link whose text has 63 characters. *)
Definition long_anchor : Anchor :=
  {| a_text := lit "Rajesh Kumar vs State Of Himachal Pradesh on 12 September, 2008";
     a_href := Some (lit "https://indiankanoon.org/doc/1/") |}.

(** All capabilities answer: two hits, two generated lines, one result link. *)
Definition service : Capabilities :=
  fixed (Ok ([3; 7]%nat, [0; 1]%Z))
        (Ok (lit "Report the accident to the police." ++ nl ++ lit "Get medical help."))
        (Ok [long_anchor]).

(** The index search fails. *)
Definition broken_index : Capabilities :=
  fixed (Raise (Error (lit "index unavailable")))
        (Ok (lit "Report the accident to the police."))
        (Ok [long_anchor]).

(** The generation fails. *)
Definition broken_generation : Capabilities :=
  fixed (Ok ([3; 7]%nat, [0; 1]%Z))
        (Raise (Error (lit "CUDA out of memory")))
        (Ok [long_anchor]).

Definition accident : ProcessQueryRequest :=
  {| req_query := lit "What should I do about a road accident?"; req_session_id := lit "s1" |}.

Definition explain : ProcessQueryRequest :=
  {| req_query := lit "please explain more"; req_session_id := lit "s1" |}.

Definition hi : ProcessQueryRequest :=
  {| req_query := lit "  hi  "; req_session_id := lit "s1" |}.

(** The search finds one neighbour only and marks the second as missing. *)
Definition sparse_index : Capabilities :=
  fixed (Ok ([3; 7]%nat, [0; -1]%Z))
        (Ok (lit "Report the accident to the police."))
        (Ok [long_anchor]).

(** The browser session fails. *)
Definition broken_browser : Capabilities :=
  fixed (Ok ([3; 7]%nat, [0; 1]%Z))
        (Ok (lit "Report the accident to the police."))
        (Raise (Error (lit "chromedriver not found"))).

Definition blank : ProcessQueryRequest :=
  {| req_query := [32; 9; 10; 160]; req_session_id := lit "s1" |}.

End Demo.

(** ** Properties of the string functions *)

Section Strings.

Lemma space_not_special c : is_space c = true -> html_special c = false.
Proof.
  intros H. unfold html_special.
  repeat match goal with
  | |- context [c =? ?k] =>
      destruct (N.eqb_spec c k) as [->|_]; [vm_compute in H; discriminate|]
  end.
  reflexivity.
Qed.

Lemma escape_char_plain c : html_special c = false -> escape_char c = [c].
Proof.
  unfold html_special, escape_char. intros H.
  repeat (destruct (c =? _); [discriminate|]). reflexivity.
Qed.

Lemma escape_char_special c :
  html_special c = true -> exists u, escape_char c = 38 :: u /\ (3 <= length u)%nat.
Proof.
  unfold html_special, escape_char. intros H.
  repeat (destruct (c =? _); [eexists; split; [reflexivity|vm_compute; lia]|]).
  discriminate.
Qed.

Lemma escape_char_nonspace c :
  is_space c = false ->
  exists d u, escape_char c = d :: u /\ Forall (fun x => is_space x = false) (d :: u).
Proof.
  intros H. unfold escape_char.
  repeat (destruct (c =? _);
    [eexists _, _; split; [reflexivity|repeat constructor]|]).
  eexists _, _; split; [reflexivity|]. repeat constructor. exact H.
Qed.

Lemma html_escape_app a b : html_escape (a ++ b) = html_escape a ++ html_escape b.
Proof. induction a as [|c a IH]; simpl; [done|]. by rewrite IH, (assoc_L (++)). Qed.

Lemma html_escape_spaces w : Forall (fun x => is_space x = true) w -> html_escape w = w.
Proof.
  induction 1 as [|c w Hc _ IH]; [done|].
  cbn [html_escape]. by rewrite escape_char_plain, IH by by apply space_not_special.
Qed.

(** *** [collapse] *)

Lemma collapse_nonspace_app b c u v :
  Forall (fun x => is_space x = false) (c :: u) ->
  collapse b ((c :: u) ++ v) = (c :: u) ++ collapse false v.
Proof.
  revert b c. induction u as [|d u IH]; intros b c H; inversion_clear H as [|? ? Hc Hu].
  - simpl. by rewrite Hc.
  - specialize (IH false d Hu).
    change (collapse b (c :: ((d :: u) ++ v)) = c :: ((d :: u) ++ collapse false v)).
    rewrite <- IH. simpl. by rewrite Hc.
Qed.

Lemma collapse_snoc b y c :
  is_space c = false -> collapse b (y ++ [c]) = collapse b y ++ [c].
Proof.
  intros Hc. revert b. induction y as [|d y IH]; intros b; simpl.
  - by rewrite Hc.
  - destruct (is_space d); [destruct b|]; simpl; by rewrite IH.
Qed.

Lemma collapse_idem b s : collapse b (collapse b s) = collapse b s.
Proof.
  revert b. induction s as [|c s IH]; intros b; simpl; [done|].
  destruct (is_space c) eqn:Hc.
  - destruct b; [apply IH|]. simpl. change (is_space 32) with true. simpl. by rewrite IH.
  - simpl. rewrite Hc. by rewrite IH.
Qed.

Lemma collapse_escape b s : collapse b (html_escape s) = html_escape (collapse b s).
Proof.
  revert b. induction s as [|c s IH]; intros b; [done|].
  cbn [html_escape collapse]. destruct (is_space c) eqn:Hc.
  - rewrite escape_char_plain by by apply space_not_special.
    cbn [app collapse]. rewrite Hc.
    destruct b; cbn [html_escape]; rewrite IH; [done|].
    by rewrite (escape_char_plain 32).
  - destruct (escape_char_nonspace c Hc) as (d & u & Hd & Hall).
    cbn [html_escape]. rewrite Hd, collapse_nonspace_app by done. by rewrite IH.
Qed.

(** *** [lstrip], [rstrip], [strip] *)

(** The string is empty or starts with a character that is no whitespace. *)
Definition no_lead (s : str) : Prop :=
  match s with
  | [] => True
  | c :: _ => is_space c = false
  end.

Lemma lstrip_no_lead s : no_lead s -> lstrip s = s.
Proof. destruct s as [|c s]; [done|]. simpl. by intros ->. Qed.

Lemma no_lead_lstrip s : no_lead (lstrip s).
Proof.
  induction s as [|c s IH]; [done|]. simpl.
  destruct (is_space c) eqn:Hc; [done|]. exact Hc.
Qed.

Lemma lstrip_decomp s :
  exists w, Forall (fun x => is_space x = true) w /\ s = w ++ lstrip s.
Proof.
  induction s as [|c s (w & Hw & IH)]; [by exists []|]. simpl.
  destruct (is_space c) eqn:Hc.
  - exists (c :: w). split; [by constructor|]. simpl. by rewrite <- IH.
  - by exists [].
Qed.

Lemma rstrip_spaces w : Forall (fun x => is_space x = true) w -> rstrip w = [].
Proof. induction 1 as [|c w Hc _ IH]; [done|]. simpl. by rewrite IH, Hc. Qed.

Lemma rstrip_app_spaces u w :
  Forall (fun x => is_space x = true) w -> rstrip (u ++ w) = rstrip u.
Proof.
  intros Hw. induction u as [|c u IH]; simpl; [by apply rstrip_spaces|by rewrite IH].
Qed.

Lemma rstrip_app_nonspace y c u :
  Forall (fun x => is_space x = false) (c :: u) -> rstrip (y ++ c :: u) = y ++ c :: u.
Proof.
  intros H. assert (Hu : rstrip (c :: u) = c :: u).
  { revert c H. induction u as [|d u IH]; intros c H; inversion_clear H as [|? ? Hc Hu].
    - simpl. by rewrite Hc.
    - specialize (IH d Hu). change (rstrip (c :: d :: u)) with
        (match rstrip (d :: u) with [] => if is_space c then [] else [c] | r' => c :: r' end).
      by rewrite IH. }
  induction y as [|a y IH]; [done|].
  change (rstrip ((a :: y) ++ c :: u)) with
    (match rstrip (y ++ c :: u) with [] => if is_space a then [] else [a] | r' => a :: r' end).
  rewrite IH. by destruct y.
Qed.

Lemma rstrip_decomp s :
  exists w, Forall (fun x => is_space x = true) w /\ s = rstrip s ++ w.
Proof.
  induction s as [|c s (w & Hw & IH)]; [by exists []|]. simpl.
  destruct (rstrip s) as [|d r'] eqn:Hr.
  - simpl in IH. subst s. destruct (is_space c) eqn:Hc.
    + exists (c :: w). split; [by constructor|done].
    + by exists w.
  - exists w. split; [done|]. simpl. f_equal. exact IH.
Qed.

(** What [rstrip] returns is empty or ends with a character that is no
    whitespace. *)
Lemma rstrip_form s :
  rstrip s = [] \/ exists y c, is_space c = false /\ rstrip s = y ++ [c].
Proof.
  induction s as [|c s IH]; [by left|]. simpl.
  destruct (rstrip s) as [|d r'] eqn:Hr.
  - destruct (is_space c) eqn:Hc; [by left|]. right. by exists [], c.
  - destruct IH as [|(y & e & He & ->)]; [done|]. right. by exists (c :: y), e.
Qed.

Lemma no_lead_rstrip s : no_lead s -> no_lead (rstrip s).
Proof.
  destruct s as [|c s]; [done|]. simpl. intros Hc.
  destruct (rstrip s); [rewrite Hc|]; exact Hc.
Qed.

Lemma no_lead_strip s : no_lead (strip s).
Proof. apply no_lead_rstrip, no_lead_lstrip. Qed.

Lemma no_lead_collapse s : no_lead s -> no_lead (collapse false s).
Proof. destruct s as [|c s]; [done|]. simpl. intros Hc. rewrite Hc. exact Hc. Qed.

Lemma lstrip_escape s : html_escape (lstrip s) = lstrip (html_escape s).
Proof.
  induction s as [|c s IH]; [done|]. cbn [lstrip html_escape].
  destruct (is_space c) eqn:Hc.
  - rewrite escape_char_plain by by apply space_not_special.
    cbn [app lstrip]. by rewrite Hc.
  - destruct (escape_char_nonspace c Hc) as (d & u & Hd & Hall).
    cbn [html_escape]. rewrite Hd. cbn [app lstrip].
    by rewrite (Forall_inv Hall).
Qed.

Lemma rstrip_escape s : html_escape (rstrip s) = rstrip (html_escape s).
Proof.
  destruct (rstrip_decomp s) as (w & Hw & Hs).
  rewrite Hs at 2. rewrite html_escape_app, (html_escape_spaces w Hw).
  rewrite rstrip_app_spaces by done.
  destruct (rstrip_form s) as [->|(y & c & Hc & ->)]; [done|].
  rewrite html_escape_app. cbn [html_escape]. rewrite (right_id_L [] (++)).
  destruct (escape_char_nonspace c Hc) as (d & u & -> & Hall).
  by rewrite rstrip_app_nonspace.
Qed.

Lemma strip_escape s : html_escape (strip s) = strip (html_escape s).
Proof. unfold strip. by rewrite rstrip_escape, lstrip_escape. Qed.

(** *** Whitespace normalisation: [strip], then [collapse] *)

Definition normalize (s : str) : str := re_sub_spaces (strip s).

Lemma strip_normalize s : strip (normalize s) = normalize s.
Proof.
  unfold normalize, re_sub_spaces.
  assert (Hl : lstrip (collapse false (strip s)) = collapse false (strip s))
    by apply lstrip_no_lead, no_lead_collapse, no_lead_strip.
  unfold strip at 1. rewrite Hl. unfold strip.
  destruct (rstrip_form (lstrip s)) as [->|(y & c & Hc & ->)]; [done|].
  rewrite collapse_snoc by done. apply rstrip_app_nonspace. by repeat constructor.
Qed.

Lemma normalize_idem s : normalize (normalize s) = normalize s.
Proof.
  unfold normalize at 1. rewrite strip_normalize.
  unfold normalize, re_sub_spaces. apply collapse_idem.
Qed.

Lemma normalize_escape s : normalize (html_escape s) = html_escape (normalize s).
Proof. unfold normalize, re_sub_spaces. by rewrite <- strip_escape, collapse_escape. Qed.

Lemma sanitize_query_normalize s : sanitize_query s = html_escape (normalize s).
Proof. unfold sanitize_query, normalize, re_sub_spaces. apply collapse_escape. Qed.

(** Sanitizing a sanitized string escapes it once more and changes nothing
    else. *)
Lemma sanitize_query_twice s :
  sanitize_query (sanitize_query s) = html_escape (sanitize_query s).
Proof.
  rewrite !sanitize_query_normalize. by rewrite normalize_escape, normalize_idem.
Qed.

(** *** Strings without a character that [html.escape] rewrites *)

Lemma spaces_html_free w : Forall (fun x => is_space x = true) w -> html_free w.
Proof. intros H. eapply Forall_impl; [exact H|]. intros c. apply space_not_special. Qed.

Lemma html_escape_length s : (length s <= length (html_escape s))%nat.
Proof.
  induction s as [|c s IH]; [done|]. cbn [html_escape]. rewrite length_app. simpl.
  destruct (html_special c) eqn:Hc.
  - destruct (escape_char_special c Hc) as (u & -> & Hu). simpl. lia.
  - rewrite escape_char_plain by done. simpl. lia.
Qed.

Lemma html_escape_free s : html_free s -> html_escape s = s.
Proof.
  induction 1 as [|c s Hc _ IH]; [done|].
  cbn [html_escape]. by rewrite escape_char_plain, IH.
Qed.

Lemma html_escape_fixed s : html_escape s = s -> html_free s.
Proof.
  induction s as [|c s IH]; [constructor|]. cbn [html_escape]. intros H.
  destruct (html_special c) eqn:Hc.
  - destruct (escape_char_special c Hc) as (u & Hu & Hlen). rewrite Hu in H.
    apply (f_equal length) in H. simpl in H. rewrite length_app in H.
    pose proof (html_escape_length s). lia.
  - rewrite escape_char_plain in H by done. constructor; [done|].
    apply IH. by injection H.
Qed.

Lemma html_free_escape s : html_free (html_escape s) <-> html_free s.
Proof.
  split; [|intros H; by rewrite html_escape_free].
  induction s as [|c s IH]; [done|]. cbn [html_escape]. intros [Hc Hs]%Forall_app.
  destruct (html_special c) eqn:Hsp.
  - destruct (escape_char_special c Hsp) as (u & Hu & _). rewrite Hu in Hc.
    by apply Forall_inv in Hc.
  - constructor; [done|by apply IH].
Qed.

Lemma html_free_collapse b s : html_free (collapse b s) <-> html_free s.
Proof.
  revert b. induction s as [|c s IH]; intros b; [done|]. cbn [collapse].
  unfold html_free in *. destruct (is_space c) eqn:Hc.
  - pose proof (space_not_special c Hc).
    assert (html_special 32 = false) by reflexivity.
    destruct b; rewrite ?Forall_cons, IH; tauto.
  - rewrite !Forall_cons, IH. done.
Qed.

Lemma html_free_strip s : html_free (strip s) <-> html_free s.
Proof.
  unfold strip, html_free.
  destruct (lstrip_decomp s) as (w1 & Hw1 & Hs).
  destruct (rstrip_decomp (lstrip s)) as (w2 & Hw2 & Hl).
  rewrite Hs at 2. rewrite Hl at 2. rewrite !Forall_app.
  pose proof (spaces_html_free w1 Hw1). pose proof (spaces_html_free w2 Hw2).
  unfold html_free in *. tauto.
Qed.

Lemma html_free_sanitize_query s : html_free (sanitize_query s) <-> html_free s.
Proof.
  rewrite sanitize_query_normalize, html_free_escape.
  unfold normalize, re_sub_spaces. by rewrite html_free_collapse, html_free_strip.
Qed.

(** C3, as the code has it: [sanitize_query(sanitize_query(s))] equals
    [sanitize_query(s)] exactly for the strings [s] that contain none of the
    five characters [html.escape] rewrites (ampersand, less-than,
    greater-than, double quote, single quote); on such strings sanitization
    is idempotent, on every other string it is not. *)
Theorem sanitize_query_idempotent_iff (s : str) :
  sanitize_query (sanitize_query s) = sanitize_query s <-> html_free s.
Proof.
  rewrite sanitize_query_twice, <- html_free_sanitize_query.
  split; [apply html_escape_fixed|apply html_escape_free].
Qed.

(** C3, as the specification states it, fails: sanitizing ["&"] gives
    ["&amp;"], and sanitizing that gives ["&amp;amp;"]. *)
Lemma sanitize_query_not_idempotent :
  sanitize_query (sanitize_query (lit "&")) <> sanitize_query (lit "&").
Proof. vm_compute. discriminate. Qed.

End Strings.

Example sanitize_ex1 :
  sanitize_query (lit "  what   is <bail>?  ") = lit "what is &lt;bail&gt;?".
Proof. reflexivity. Qed.

Example sanitize_ex2 : sanitize_query (lit "&") = lit "&amp;".
Proof. reflexivity. Qed.

Example sanitize_ex3 : sanitize_query (lit "&amp;") = lit "&amp;amp;".
Proof. reflexivity. Qed.

Example sanitize_ex4 :
  html_free (lit " road   accident ") /\
  sanitize_query (sanitize_query (lit " road   accident ")) = lit "road accident".
Proof. split; [repeat constructor|reflexivity]. Qed.

(** ** Properties of the service *)

Section Properties.
Context `{caps : Capabilities}.

(** The session [get_session] returns for a key, and the store it leaves. *)
Definition session_of (session_id : str) (m : gmap str Session) : Session :=
  default fresh_session (m !! session_id).

Definition ensure_session (session_id : str) (m : gmap str Session) : gmap str Session :=
  match m !! session_id with
  | Some _ => m
  | None => <[session_id := fresh_session]> m
  end.

(** A computation that returns, and leaves the session store as it was. *)
Definition returns_quietly {A} (m : M A) : Prop :=
  forall st, exists a st', m st = (Ok a, st') /\ sessions st' = sessions st.

(** A computation that leaves the session store as it was, whatever its
    outcome. *)
Definition quiet {A} (m : M A) : Prop :=
  forall st, sessions (m st).2 = sessions st.

Lemma get_session_run session_id st :
  get_session session_id st =
  (Ok (session_of session_id (sessions st)),
   set_sessions (ensure_session session_id (sessions st)) st).
Proof.
  unfold get_session, session_of, ensure_session.
  destruct (sessions st !! session_id); [|done].
  by destruct st.
Qed.

Lemma session_of_ensure session_id m :
  ensure_session session_id m !! session_id = Some (session_of session_id m).
Proof.
  unfold ensure_session, session_of.
  destruct (m !! session_id) eqn:E; [done|]. by rewrite lookup_insert_eq.
Qed.

Lemma insert_ensure session_id s m :
  <[session_id := s]> (ensure_session session_id m) = <[session_id := s]> m.
Proof.
  unfold ensure_session. destruct (m !! session_id); [done|].
  by rewrite insert_insert_eq.
Qed.

Lemma update_run session_id query ans refs cs st :
  update session_id query ans refs cs st =
  (Ok tt,
   set_sessions
     (<[session_id :=
          {| current_context := Some {| ctx_query := query; ctx_answer := ans;
                                        ctx_references := refs; ctx_cases := cs |};
             references := Some refs;
             cases := Some cs;
             history := history (session_of session_id (sessions st))
                        ++ [(user, query); (assistant, ans)] |}]> (sessions st)) st).
Proof.
  unfold update, bind. rewrite get_session_run. unfold store_session, set_sessions.
  simpl. by rewrite insert_ensure.
Qed.

Lemma quiet_of_returns {A} (m : M A) : returns_quietly m -> quiet m.
Proof. intros H st. by destruct (H st) as (a & st' & -> & ?). Qed.

Lemma returns_ret {A} (a : A) : returns_quietly (ret a).
Proof. intros st. by exists a, st. Qed.

Lemma returns_bind {A B} (m : M A) (k : A -> M B) :
  returns_quietly m -> (forall a, returns_quietly (k a)) -> returns_quietly (bind m k).
Proof.
  intros Hm Hk st. unfold bind.
  destruct (Hm st) as (a & st1 & -> & H1).
  destruct (Hk a st1) as (b & st2 & -> & H2).
  exists b, st2. split; [done|congruence].
Qed.

Lemma quiet_bind {A B} (m : M A) (k : A -> M B) :
  quiet m -> (forall a, quiet (k a)) -> quiet (bind m k).
Proof.
  intros Hm Hk st. unfold bind. specialize (Hm st).
  destruct (m st) as [[a|e] st1]; simpl in *; [|done].
  by rewrite Hk.
Qed.

Lemma quiet_lift {A} (r : result A) : quiet (lift r).
Proof. done. Qed.

Lemma returns_try_except {A} (body : M A) (handler : exn -> M A) :
  quiet body -> (forall e, returns_quietly (handler e)) ->
  returns_quietly (try_except body handler).
Proof.
  intros Hb Hh st. unfold try_except. specialize (Hb st).
  destruct (body st) as [[a|e] st1]; simpl in *.
  - by exists a, st1.
  - destruct (Hh e st1) as (a & st2 & -> & H2). exists a, st2. split; [done|congruence].
Qed.

Lemma quiet_call_search query k : quiet (call_search query k).
Proof. intros st. unfold call_search. by destruct (index_search _ _ _). Qed.

Lemma quiet_call_generate input_text max_length :
  quiet (call_generate input_text max_length).
Proof. intros st. unfold call_generate. by destruct (bart_generate _ _ _). Qed.

Lemma quiet_call_browser query : quiet (call_browser query).
Proof. intros st. unfold call_browser. by destruct (kanoon_search _ _). Qed.

Lemma returns_generate_with_bart input_text max_length :
  returns_quietly (generate_with_bart input_text max_length).
Proof.
  apply returns_try_except; [apply quiet_call_generate|intros _; apply returns_ret].
Qed.

Lemma returns_generate_direct_answer query context :
  returns_quietly (generate_direct_answer query context).
Proof.
  apply returns_bind; [apply returns_generate_with_bart|intros; apply returns_ret].
Qed.

Lemma returns_generate_legal_analysis text act_name section_number :
  returns_quietly (generate_legal_analysis text act_name section_number).
Proof. apply returns_generate_with_bart. Qed.

Lemma returns_build_references sections : returns_quietly (build_references sections).
Proof.
  induction sections as [|s rest IH]; [apply returns_ret|]. cbn [build_references].
  apply returns_bind; [apply returns_generate_legal_analysis|intros summary].
  apply returns_bind; [exact IH|intros; apply returns_ret].
Qed.

Lemma returns_fetch_kanoon_results query max_results :
  returns_quietly (fetch_kanoon_results query max_results).
Proof.
  apply returns_try_except; [|intros _; apply returns_ret].
  apply quiet_bind; [apply quiet_call_browser|done].
Qed.

Lemma returns_format_response base_answer refs cs :
  returns_quietly (format_response base_answer refs cs).
Proof.
  apply returns_bind; [apply returns_generate_with_bart|intros; apply returns_ret].
Qed.

Lemma quiet_find_relevant_sections query k : quiet (find_relevant_sections query k).
Proof. apply quiet_bind; [apply quiet_call_search|intros; apply quiet_lift]. Qed.

(** *** Running the handler *)

Lemma bind_ok {A B} (m : M A) (k : A -> M B) st a st1 :
  m st = (Ok a, st1) -> bind m k st = k a st1.
Proof. unfold bind. by intros ->. Qed.

Lemma bind_raise {A B} (m : M A) (k : A -> M B) st e st1 :
  m st = (Raise e, st1) -> bind m k st = (Raise e, st1).
Proof. unfold bind. by intros ->. Qed.

Lemma try_except_raise {A} (body : M A) (handler : exn -> M A) st e st1 :
  body st = (Raise e, st1) -> try_except body handler st = handler e st1.
Proof. unfold try_except. by intros ->. Qed.

Lemma try_except_ok {A} (body : M A) (handler : exn -> M A) st a st1 :
  body st = (Ok a, st1) -> try_except body handler st = (Ok a, st1).
Proof. unfold try_except. by intros ->. Qed.

(** The session an [update] writes. *)
Definition updated_session (old : Session) (query ans : str)
    (refs : list Reference) (cs : list Case) : Session :=
  {| current_context := Some {| ctx_query := query; ctx_answer := ans;
                                ctx_references := refs; ctx_cases := cs |};
     references := Some refs;
     cases := Some cs;
     history := history old ++ [(user, query); (assistant, ans)] |}.

(** The three ways a request ends. *)
Inductive outcome (request : ProcessQueryRequest) (st : State)
    : result ResponseModel -> State -> Prop :=
| outcome_error detail st' :
    sessions st' = ensure_session (req_session_id request) (sessions st) ->
    outcome request st (Raise (HTTPException 500 detail)) st'
| outcome_follow_up resp st' :
    (3 <= len (sanitize_query (req_query request)))%nat ->
    is_follow_up (sanitize_query (req_query request))
      (session_of (req_session_id request) (sessions st)) = true ->
    resp_is_follow_up resp = true ->
    references (session_of (req_session_id request) (sessions st))
      = Some (resp_references resp) ->
    cases (session_of (req_session_id request) (sessions st)) = Some (resp_cases resp) ->
    sessions st' = sessions st ->
    outcome request st (Ok resp) st'
| outcome_fresh resp st' :
    (3 <= len (sanitize_query (req_query request)))%nat ->
    is_follow_up (sanitize_query (req_query request))
      (session_of (req_session_id request) (sessions st)) = false ->
    resp_is_follow_up resp = false ->
    sessions st' =
      <[req_session_id request :=
          updated_session (session_of (req_session_id request) (sessions st))
            (sanitize_query (req_query request)) (answer resp)
            (resp_references resp) (resp_cases resp)]> (sessions st) ->
    outcome request st (Ok resp) st'.

Lemma is_follow_up_context query session :
  is_follow_up query session = true -> exists ctx, current_context session = Some ctx.
Proof. unfold is_follow_up. destruct (current_context session); [eauto|done]. Qed.

Lemma ensure_session_present session_id m s :
  m !! session_id = Some s -> ensure_session session_id m = m.
Proof. unfold ensure_session. by intros ->. Qed.

Lemma session_of_context session_id m ctx :
  current_context (session_of session_id m) = Some ctx ->
  ensure_session session_id m = m.
Proof.
  unfold session_of, ensure_session. by destruct (m !! session_id).
Qed.

Lemma process_legal_query_outcome request st :
  outcome request st (process_legal_query request st).1 (process_legal_query request st).2.
Proof.
  unfold process_legal_query, process_legal_query_body, try_except.
  set (sid := req_session_id request). set (query := sanitize_query (req_query request)).
  rewrite (bind_ok _ _ _ _ _ (get_session_run sid st)).
  set (session := session_of sid (sessions st)).
  set (st1 := set_sessions (ensure_session sid (sessions st)) st).
  destruct (len query <? 3)%nat eqn:Hlen.
  { unfold raise. simpl. by constructor. }
  apply Nat.ltb_ge in Hlen.
  destruct (is_follow_up query session) eqn:Hfu.
  - destruct (is_follow_up_context _ _ Hfu) as [ctx Hctx].
    assert (Hm : sessions st1 = sessions st) by (eapply session_of_context, Hctx).
    unfold subscript_context. rewrite Hctx.
    rewrite (bind_ok _ _ _ ctx st1) by done.
    destruct (returns_generate_direct_answer query
                (join nl [lit "Previous: " ++ ctx_query ctx; lit "Answer: " ++ ctx_answer ctx])
                st1) as (ans & st2 & Hrun & Hs2).
    rewrite (bind_ok _ _ _ _ _ Hrun).
    destruct (references session) as [refs|] eqn:Hrefs; cycle 1.
    { unfold bind, lift, validate_list, raise. simpl.
      constructor. by rewrite Hs2. }
    rewrite (bind_ok _ _ _ refs st2) by done.
    destruct (cases session) as [cs|] eqn:Hcs; cycle 1.
    { unfold bind, lift, validate_list, raise. simpl.
      constructor. by rewrite Hs2. }
    rewrite (bind_ok _ _ _ cs st2) by done.
    unfold ret. simpl.
    apply outcome_follow_up; simpl; try done. congruence.
  - pose proof (quiet_find_relevant_sections query 5 st1) as Hq.
    destruct (find_relevant_sections query 5 st1) as [[sections|e] st2] eqn:Hfind;
      simpl in Hq; cycle 1.
    { rewrite (bind_raise _ _ _ _ _ Hfind). unfold raise. simpl. by constructor. }
    rewrite (bind_ok _ _ _ _ _ Hfind).
    destruct sections as [|s0 sections].
    { unfold raise. simpl. by constructor. }
    set (secs := s0 :: sections).
    match goal with
    | |- context [generate_direct_answer query ?c] =>
        destruct (returns_generate_direct_answer query c st2) as (base & st3 & Hrun3 & Hs3)
    end.
    rewrite (bind_ok _ _ _ _ _ Hrun3).
    destruct (returns_build_references (take 2 secs) st3) as (refs & st4 & Hrun4 & Hs4).
    rewrite (bind_ok _ _ _ _ _ Hrun4).
    destruct (returns_fetch_kanoon_results query 3 st4) as (cs & st5 & Hrun5 & Hs5).
    rewrite (bind_ok _ _ _ _ _ Hrun5).
    destruct (returns_format_response base refs cs st5) as (text & st6 & Hrun6 & Hs6).
    rewrite (bind_ok _ _ _ _ _ Hrun6).
    rewrite (bind_ok _ _ _ _ _ (update_run sid query text refs cs st6)).
    unfold ret. simpl.
    apply outcome_fresh; simpl; try done.
    rewrite Hs6, Hs5, Hs4, Hs3, Hq. unfold st1. simpl.
    rewrite insert_ensure. do 2 f_equal.
    unfold session_of. by rewrite session_of_ensure.
Qed.

(** *** Follow-up classifier *)

Lemma starts_with_spec p s : starts_with p s = true <-> exists post, s = p ++ post.
Proof.
  revert s. induction p as [|a p IH]; intros s; simpl.
  - split; [by exists s|done].
  - destruct s as [|b s].
    + split; [done|]. by intros [post ?].
    + rewrite andb_true_iff, N.eqb_eq, IH. split.
      * intros [-> [post ->]]. by exists post.
      * intros [post H]. injection H as -> ->. eauto.
Qed.

Lemma contains_spec needle hay :
  contains needle hay = true <-> exists pre post, hay = pre ++ needle ++ post.
Proof.
  induction hay as [|c hay IH]; simpl; rewrite orb_true_iff, starts_with_spec.
  - split.
    + intros [[post H]|]; [|done]. by exists [], post.
    + intros (pre & post & H). left. destruct pre; [by exists post|done].
  - rewrite IH. split.
    + intros [[post H]|(pre & post & ->)]; [by exists [], post|by exists (c :: pre), post].
    + intros (pre & post & H). destruct pre as [|d pre].
      * left. by exists post.
      * right. injection H as -> ->. by exists pre, post.
Qed.

(** C5: [is_follow_up] is false when the session's [current_context] is empty;
    otherwise it is true exactly when the lower-cased query contains one of
    the markers "follow up", "previous", "explain", "more info",
    "about that". *)
Theorem is_follow_up_spec (query : str) (session : Session) :
  (current_context session = None -> is_follow_up query session = false) /\
  (current_context session <> None ->
   (is_follow_up query session = true <->
    exists marker pre post,
      In marker [lit "follow up"; lit "previous"; lit "explain"; lit "more info";
                 lit "about that"] /\
      lower query = pre ++ marker ++ post)).
Proof.
  unfold is_follow_up. split.
  - by intros ->.
  - destruct (current_context session); [intros _|done].
    rewrite existsb_exists. split.
    + intros (marker & Hin & (pre & post & H)%contains_spec). by exists marker, pre, post.
    + intros (marker & pre & post & Hin & H). exists marker. split; [done|].
      apply contains_spec. eauto.
Qed.

(** *** Answer generator *)

Lemma generate_with_bart_run input_text max_length st :
  generate_with_bart input_text max_length st =
  (Ok (match (bart_generate (world st) input_text max_length).1 with
       | Ok text => text
       | Raise _ => []
       end),
   after_call (CallGenerate input_text max_length)
     (bart_generate (world st) input_text max_length).2 st).
Proof.
  unfold generate_with_bart, try_except, call_generate.
  by destruct (bart_generate _ _ _) as [[text|e] w].
Qed.

(** C8: a failure of the generation capability never leaves
    [generate_with_bart], which then returns the empty string;
    [generate_direct_answer] returns for every query and context, its answer
    is never empty, and it is the phrase "Immediate legal steps:" whenever
    [generate_with_bart] gave the empty string. *)
Theorem generation_failure_absorbed (query context : str) (st : State) :
  (forall input_text max_length st0,
     exists text st1,
       generate_with_bart input_text max_length st0 = (Ok text, st1) /\
       (forall e w, bart_generate (world st0) input_text max_length = (Raise e, w) ->
                    text = []) /\
       (forall t w, bart_generate (world st0) input_text max_length = (Ok t, w) ->
                    text = t)) /\
  exists ans st',
    generate_direct_answer query context st = (Ok ans, st') /\
    ans <> [] /\
    ((generate_with_bart (direct_answer_input query context) 200 st).1 = Ok [] ->
     ans = lit "Immediate legal steps:") /\
    (forall steps, steps <> [] ->
       (generate_with_bart (direct_answer_input query context) 200 st).1 = Ok steps ->
       ans = steps).
Proof.
  split.
  - intros input_text max_length st0. eexists _, _.
    split; [apply generate_with_bart_run|]. split.
    + by intros e w ->.
    + by intros t w ->.
  - unfold generate_direct_answer.
    rewrite (bind_ok _ _ _ _ _ (generate_with_bart_run _ _ _)).
    rewrite generate_with_bart_run. unfold ret. simpl.
    eexists _, _. split; [reflexivity|].
    destruct (bart_generate _ _ _).1 as [[|c t]|e]; simpl.
    + split; [done|]. split; [done|]. by intros steps Hne [= <-].
    + split; [done|]. split; [done|]. by intros steps _ [= <-].
    + split; [done|]. split; [done|]. by intros steps Hne [= <-].
Qed.

Lemma generation_answer_run query context st :
  exists ans st',
    generate_direct_answer query context st = (Ok ans, st') /\
    ans <> [] /\
    sessions st' = sessions st.
Proof.
  unfold generate_direct_answer.
  rewrite (bind_ok _ _ _ _ _ (generate_with_bart_run _ _ _)). unfold ret.
  eexists _, _. split; [reflexivity|]. split; [|done].
  by destruct (bart_generate _ _ _).1 as [[|c t]|e].
Qed.

(** *** Response composer *)

Lemma append_lines_concat {A} (line : A -> str) response xs :
  append_lines line response xs = response ++ concat (map line xs).
Proof.
  unfold append_lines. revert response.
  induction xs as [|x xs IH]; intros response; simpl.
  - by rewrite (right_id_L [] (++)).
  - by rewrite IH, (assoc_L (++)).
Qed.

(** The composed text up to and including the recommendations, for a given
    output of the recommendations pass. *)
Definition response_body (base_answer : str) (refs : list Reference) (rec_text : str) : str :=
  append_lines recommendation_line
    (append_lines provision_line
       (steps_header
        ++ join nl (map (fun step => lit "- " ++ step) (take 3 (stripped_lines base_answer)))
        ++ provisions_header)
       (take 3 refs)
     ++ recommendations_header)
    (take 3 (stripped_lines rec_text)).

Lemma format_response_run base_answer refs cs st :
  exists rec_text st',
    generate_with_bart (lit "Generate 3 legal recommendations: " ++ base_answer) 150 st
      = (Ok rec_text, st') /\
    format_response base_answer refs cs st =
      (Ok (response_body base_answer refs rec_text
           ++ match cs with
              | [] => []
              | _ :: _ => cases_header ++ concat (map case_line (take 2 cs))
              end), st').
Proof.
  eexists _, _. split; [apply generate_with_bart_run|].
  unfold format_response.
  rewrite (bind_ok _ _ _ _ _ (generate_with_bart_run _ _ _)). unfold ret.
  f_equal. f_equal. unfold response_body. rewrite <- !(assoc_L (++)).
  destruct cs as [|c cs]; [by rewrite (right_id_L [] (++))|].
  rewrite (append_lines_concat case_line). by rewrite <- !(assoc_L (++)).
Qed.

(** C4, as the code has it: for a non-empty [cases] list the composed response
    ends with the "Related Cases" header and one line per case for the first
    two cases, each of the form "- {title} ({url})" after a line feed, where
    the title is cut once more, to at most 50 characters (the case's title
    itself when it has at most 50); what comes before the header is the
    response composed for no cases. *)
Theorem related_cases_rendering (base_answer : str) (refs : list Reference)
    (cs : list Case) (st : State) :
  cs <> [] ->
  exists body st',
    format_response base_answer refs [] st = (Ok body, st') /\
    format_response base_answer refs cs st =
      (Ok (body ++ cases_header
           ++ concat (map (fun case =>
                             nl ++ lit "- " ++ take 50 (title case) ++ lit " ("
                             ++ format_optional (url case) ++ lit ")")
                          (take 2 cs))), st') /\
    (length (take 2 cs) <= 2)%nat /\
    Forall (fun case =>
              (length (take 50 (title case)) <= 50)%nat /\
              ((length (title case) <= 50)%nat -> take 50 (title case) = title case)) cs.
Proof.
  intros Hne.
  destruct (format_response_run base_answer refs [] st) as (rec_text & st' & Hgen & Hnil).
  destruct (format_response_run base_answer refs cs st) as (rec_text' & st'' & Hgen' & Hcs).
  rewrite Hgen in Hgen'. injection Hgen' as <- <-.
  rewrite (right_id_L [] (++)) in Hnil.
  exists (response_body base_answer refs rec_text), st'.
  split; [done|]. split; [by destruct cs|]. split.
  - rewrite length_take. lia.
  - apply Forall_forall. intros case _. split.
    + rewrite length_take. lia.
    + apply take_ge.
Qed.

(** What the fetcher produces: at most [max_results] cases, each title at
    most 80 characters long. *)
Lemma fetch_kanoon_results_titles query max_results st :
  exists cs st',
    fetch_kanoon_results query max_results st = (Ok cs, st') /\
    (length cs <= max_results)%nat /\
    Forall (fun case => (length (title case) <= 80)%nat) cs.
Proof.
  unfold fetch_kanoon_results, try_except, bind, call_browser, ret.
  destruct (kanoon_search (world st) query) as [[anchors|e] w]; eexists _, _;
    (split; [reflexivity|]).
  - split.
    + rewrite length_map, length_take. lia.
    + apply Forall_forall. intros case (r & -> & _)%list_elem_of_fmap. simpl.
      rewrite length_take. lia.
  - split; [simpl; lia|constructor].
Qed.

(** *** The handler: rejected and failed requests *)

Lemma short_query_run request st :
  (len (sanitize_query (req_query request)) < 3)%nat ->
  let st1 := set_sessions (ensure_session (req_session_id request) (sessions st)) st in
  process_legal_query_body request st =
    (Raise (HTTPException 400 (lit "Please ask a more detailed question.")), st1) /\
  process_legal_query request st =
    (Raise (HTTPException 500
              (http_exception_str 400 (lit "Please ask a more detailed question."))), st1).
Proof.
  intros Hlen%Nat.ltb_lt st1.
  assert (Hbody : process_legal_query_body request st =
    (Raise (HTTPException 400 (lit "Please ask a more detailed question.")), st1)).
  { unfold process_legal_query_body.
    rewrite (bind_ok _ _ _ _ _ (get_session_run _ st)). by rewrite Hlen. }
  split; [done|].
  unfold process_legal_query. by rewrite (try_except_raise _ _ _ _ _ Hbody).
Qed.

Lemma http_status_outcome request st r st' :
  outcome request st r st' -> http_status r = 200%nat \/ http_status r = 500%nat.
Proof. destruct 1; simpl; auto. Qed.

Lemma fresh_retrieval_run request st :
  let query := sanitize_query (req_query request) in
  let session := session_of (req_session_id request) (sessions st) in
  let st1 := set_sessions (ensure_session (req_session_id request) (sessions st)) st in
  (3 <= len query)%nat -> is_follow_up query session = false ->
  (forall st2, find_relevant_sections query 5 st1 = (Ok [], st2) ->
     process_legal_query request st =
       (Raise (HTTPException 500 (http_exception_str 404 (lit "No relevant laws found"))),
        st2)) /\
  (forall e st2, find_relevant_sections query 5 st1 = (Raise e, st2) ->
     process_legal_query request st = (Raise (HTTPException 500 (exn_str e)), st2)).
Proof.
  intros query session st1 Hlen%Nat.ltb_ge Hfu.
  assert (exists k, process_legal_query_body request st =
                      bind (find_relevant_sections query 5) k st1 /\
                    k [] = raise (HTTPException 404 (lit "No relevant laws found")))
    as (k & Hbody & Hk).
  { eexists. split.
    - unfold process_legal_query_body.
      rewrite (bind_ok _ _ _ _ _ (get_session_run _ st)).
      fold query session st1. rewrite Hlen, Hfu. reflexivity.
    - reflexivity. }
  unfold process_legal_query. split.
  - intros st2 Hfind. rewrite (bind_ok _ _ _ _ _ Hfind), Hk in Hbody.
    by rewrite (try_except_raise _ _ _ _ _ Hbody).
  - intros e st2 Hfind. rewrite (bind_raise _ _ _ _ _ Hfind) in Hbody.
    by rewrite (try_except_raise _ _ _ _ _ Hbody).
Qed.

(** C1, what the code does: every request is answered with status 200 or 500.
    A query whose sanitized length is below 3 raises the 400 exception inside
    the handler's [try], and a retrieval without candidates the 404 one; both
    are caught by the handler's own [except Exception] and leave as status
    500, with the text of the caught exception as detail.  Any other failure,
    such as one of the retrieval, leaves as 500 with its message. *)
Theorem process_legal_query_status (request : ProcessQueryRequest) (st : State) :
  let query := sanitize_query (req_query request) in
  let session := session_of (req_session_id request) (sessions st) in
  let st1 := set_sessions (ensure_session (req_session_id request) (sessions st)) st in
  let r := (process_legal_query request st).1 in
  (http_status r = 200%nat \/ http_status r = 500%nat) /\
  ((len query < 3)%nat ->
   r = Raise (HTTPException 500
                (http_exception_str 400 (lit "Please ask a more detailed question.")))) /\
  ((3 <= len query)%nat -> is_follow_up query session = false ->
   (forall st2, find_relevant_sections query 5 st1 = (Ok [], st2) ->
      r = Raise (HTTPException 500 (http_exception_str 404 (lit "No relevant laws found")))) /\
   (forall e st2, find_relevant_sections query 5 st1 = (Raise e, st2) ->
      r = Raise (HTTPException 500 (exn_str e)))).
Proof.
  intros query session st1 r. split; [|split].
  - eapply http_status_outcome, process_legal_query_outcome.
  - intros Hlen. unfold r. by rewrite (proj2 (short_query_run request st Hlen)).
  - intros Hlen Hfu.
    destruct (fresh_retrieval_run request st Hlen Hfu) as [Hnone Hfail].
    unfold r. split.
    + intros st2 Hfind. by rewrite (Hnone st2 Hfind).
    + intros e st2 Hfind. by rewrite (Hfail e st2 Hfind).
Qed.

(** C7, what the code does: a query whose sanitized length is below 3 is
    rejected before any capability is called: the log of capability calls is
    as it was (no index search, no generation, no browser fetch), and so is
    the world they act on.  The rejection is not the 400 one, though: the 400
    exception of line 203 is raised inside the handler's [try] and does not
    leave it; the handler's [except Exception] catches it, and the caller is
    answered with status 500, the text of the 400 exception as detail. *)
Theorem short_query_rejected_before_collaborators
    (request : ProcessQueryRequest) (st : State) :
  (len (sanitize_query (req_query request)) < 3)%nat ->
  exists st',
    process_legal_query_body request st =
      (Raise (HTTPException 400 (lit "Please ask a more detailed question.")), st') /\
    process_legal_query request st =
      (Raise (HTTPException 500
                (http_exception_str 400 (lit "Please ask a more detailed question."))),
       st') /\
    http_status (process_legal_query request st).1 = 500%nat /\
    calls st' = calls st /\
    world st' = world st.
Proof.
  intros Hlen. destruct (short_query_run request st Hlen) as [Hbody Hrun].
  eexists. split; [exact Hbody|]. split; [exact Hrun|]. by rewrite Hrun.
Qed.

(** C10: the session is looked up before the query is validated: a request
    rejected for a too short query, on a key the store does not hold, leaves
    the store with a fresh entry for that key ([current_context], [references]
    and [cases] are [None], [history] is empty) and otherwise as it was. *)
Theorem short_query_creates_session (request : ProcessQueryRequest) (st : State) :
  (len (sanitize_query (req_query request)) < 3)%nat ->
  sessions st !! req_session_id request = None ->
  let st' := (process_legal_query request st).2 in
  (exists e, (process_legal_query request st).1 = Raise e) /\
  sessions st' =
    <[req_session_id request :=
        {| current_context := None; references := None; cases := None; history := [] |}]>
      (sessions st) /\
  sessions st' !! req_session_id request =
    Some {| current_context := None; references := None; cases := None; history := [] |}.
Proof.
  intros Hlen Hnone st'. unfold st'.
  rewrite (proj2 (short_query_run request st Hlen)). simpl.
  unfold ensure_session. rewrite Hnone. split; [eauto|]. split; [done|].
  apply lookup_insert_eq.
Qed.

(** C6: on the fresh branch a failure of the retrieval (of the index search,
    or of the lookup of a hit in [section_data]) aborts the request with an
    error answered to the caller, status 500 with the failure's message; and
    whenever a request of the fresh branch ends in a failure, the store is the
    one the session lookup left: the session's [current_context],
    [references], [cases] and [history] are unchanged, and so is every other
    session.  (A failure of the generation never reaches the handler.) *)
Theorem fresh_failure_leaves_session (request : ProcessQueryRequest) (st : State) :
  let sid := req_session_id request in
  let query := sanitize_query (req_query request) in
  (3 <= len query)%nat ->
  is_follow_up query (session_of sid (sessions st)) = false ->
  (forall e st2,
     find_relevant_sections query 5 (set_sessions (ensure_session sid (sessions st)) st)
       = (Raise e, st2) ->
     (process_legal_query request st).1 = Raise (HTTPException 500 (exn_str e))) /\
  (forall e w, index_search (world st) query 5 = (Raise e, w) ->
     (process_legal_query request st).1 = Raise (HTTPException 500 (exn_str e))) /\
  (forall e, (process_legal_query request st).1 = Raise e ->
     let st' := (process_legal_query request st).2 in
     http_status (process_legal_query request st).1 = 500%nat /\
     sessions st' = ensure_session sid (sessions st) /\
     current_context (session_of sid (sessions st'))
       = current_context (session_of sid (sessions st)) /\
     references (session_of sid (sessions st')) = references (session_of sid (sessions st)) /\
     cases (session_of sid (sessions st')) = cases (session_of sid (sessions st)) /\
     history (session_of sid (sessions st')) = history (session_of sid (sessions st)) /\
     (forall other, other <> sid -> sessions st' !! other = sessions st !! other)).
Proof.
  intros sid query Hlen Hfu. split; [|split].
  - intros e st2 Hfind.
    destruct (fresh_retrieval_run request st Hlen Hfu) as [_ Hfail].
    by rewrite (Hfail e st2 Hfind).
  - intros e w Hsearch.
    destruct (fresh_retrieval_run request st Hlen Hfu) as [_ Hfail].
    erewrite Hfail; [done|].
    unfold find_relevant_sections. apply bind_raise.
    unfold call_search, set_sessions. cbn [world]. fold query. by rewrite Hsearch.
  - intros e He st'. pose proof (process_legal_query_outcome request st) as Hout.
    fold st' in Hout. rewrite He in *. inversion Hout as [detail ? Hs| |]; subst.
    assert (Hsame : session_of sid (sessions st') = session_of sid (sessions st)).
    { unfold session_of at 1. fold sid in Hs. by rewrite Hs, session_of_ensure. }
    rewrite Hsame. repeat split; try done.
    intros other Hother. fold sid in Hs. rewrite Hs. unfold ensure_session.
    destruct (sessions st !! sid); [done|]. by rewrite lookup_insert_ne.
Qed.

(** *** The handler: follow-up requests *)

Lemma follow_up_run request st refs cs :
  let sid := req_session_id request in
  let query := sanitize_query (req_query request) in
  let session := session_of sid (sessions st) in
  (3 <= len query)%nat ->
  is_follow_up query session = true ->
  references session = Some refs ->
  cases session = Some cs ->
  exists ans st',
    process_legal_query request st =
      (Ok {| answer := ans; resp_references := refs; resp_cases := cs;
             resp_is_follow_up := true; resp_session_id := sid |}, st') /\
    ans <> [] /\
    sessions st' = sessions st.
Proof.
  intros sid query session Hlen%Nat.ltb_ge Hfu Hrefs Hcs.
  destruct (is_follow_up_context _ _ Hfu) as [ctx Hctx].
  unfold process_legal_query, process_legal_query_body.
  set (context := join nl [lit "Previous: " ++ ctx_query ctx; lit "Answer: " ++ ctx_answer ctx]).
  set (st1 := set_sessions (ensure_session sid (sessions st)) st).
  destruct (generation_answer_run query context st1) as (ans & st2 & Hrun & Hans & Hs2).
  exists ans, st2. split; [|split; [done|]].
  - apply try_except_ok.
    rewrite (bind_ok _ _ _ _ _ (get_session_run _ st)).
    fold sid query session st1. rewrite Hlen, Hfu.
    unfold subscript_context. rewrite Hctx, Hrefs, Hcs.
    rewrite (bind_ok _ _ _ ctx st1) by done. fold context.
    rewrite (bind_ok _ _ _ _ _ Hrun).
    rewrite (bind_ok _ _ _ refs st2) by done.
    by rewrite (bind_ok _ _ _ cs st2) by done.
  - rewrite Hs2. eapply session_of_context, Hctx.
Qed.

(** C2, as the code has it: a request classified as a follow-up leaves the
    whole session store as it was: the session's [references] and [cases] are
    unchanged, and so are its [current_context] and its [history], to which no
    turn is appended.  The response reuses the session's references and cases
    and is marked as a follow-up. *)
Theorem follow_up_leaves_session (request : ProcessQueryRequest) (st : State) :
  let sid := req_session_id request in
  let query := sanitize_query (req_query request) in
  let session := session_of sid (sessions st) in
  (3 <= len query)%nat ->
  is_follow_up query session = true ->
  let st' := (process_legal_query request st).2 in
  sessions st' = sessions st /\
  references (session_of sid (sessions st')) = references session /\
  cases (session_of sid (sessions st')) = cases session /\
  current_context (session_of sid (sessions st')) = current_context session /\
  history (session_of sid (sessions st')) = history session /\
  (forall refs cs, references session = Some refs -> cases session = Some cs ->
     exists ans,
       (process_legal_query request st).1 =
         Ok {| answer := ans; resp_references := refs; resp_cases := cs;
               resp_is_follow_up := true; resp_session_id := sid |}).
Proof.
  intros sid query session Hlen Hfu st'.
  assert (Hs : sessions st' = sessions st).
  { pose proof (process_legal_query_outcome request st) as Hout. fold st' in Hout.
    destruct (is_follow_up_context _ _ Hfu) as [ctx Hctx].
    inversion Hout as [detail ? Hs|resp ? ? ? ? ? ? Hs|resp ? ? Hfresh]; subst.
    - rewrite Hs. eapply session_of_context, Hctx.
    - done.
    - fold sid query session in Hfresh. congruence. }
  rewrite Hs. repeat split; try done.
  intros refs cs Hrefs Hcs.
  destruct (follow_up_run request st refs cs Hlen Hfu Hrefs Hcs) as (ans & st2 & Hrun & _).
  exists ans. by rewrite Hrun.
Qed.

(** *** The session invariant *)

(** [current_context], [references] and [cases] describe the same turn (or no
    turn yet), and the history holds whole pairs. *)
Definition session_consistent (s : Session) : Prop :=
  match current_context s with
  | Some ctx => references s = Some (ctx_references ctx) /\ cases s = Some (ctx_cases ctx)
  | None => references s = None /\ cases s = None
  end /\ Nat.Even (length (history s)).

(** The requests of a list served one after the other. *)
Fixpoint serve (requests : list ProcessQueryRequest) (st : State) : State :=
  match requests with
  | [] => st
  | request :: rest => serve rest (process_legal_query request st).2
  end.

Lemma fresh_session_consistent : session_consistent fresh_session.
Proof. split; [done|]. by exists 0%nat. Qed.

Lemma session_of_consistent session_id m :
  map_Forall (fun _ s => session_consistent s) m ->
  session_consistent (session_of session_id m).
Proof.
  intros H. unfold session_of. destruct (m !! session_id) eqn:E; simpl.
  - by apply (H session_id).
  - apply fresh_session_consistent.
Qed.

Lemma ensure_session_consistent session_id m :
  map_Forall (fun _ s => session_consistent s) m ->
  map_Forall (fun _ s => session_consistent s) (ensure_session session_id m).
Proof.
  intros H. unfold ensure_session. destruct (m !! session_id); [done|].
  apply map_Forall_insert_2; [apply fresh_session_consistent|done].
Qed.

Lemma updated_session_consistent old query ans refs cs :
  session_consistent old -> session_consistent (updated_session old query ans refs cs).
Proof.
  intros [_ [n Hn]]. split; [done|]. simpl. exists (S n).
  rewrite length_app. simpl. lia.
Qed.

Lemma process_legal_query_consistent request st :
  map_Forall (fun _ s => session_consistent s) (sessions st) ->
  map_Forall (fun _ s => session_consistent s) (sessions (process_legal_query request st).2).
Proof.
  intros H. destruct (process_legal_query_outcome request st) as
    [detail st' Hs|resp st' _ _ _ _ _ Hs|resp st' _ _ _ Hs]; rewrite Hs.
  - by apply ensure_session_consistent.
  - done.
  - apply map_Forall_insert_2; [|done].
    by apply updated_session_consistent, session_of_consistent.
Qed.

Lemma serve_consistent requests st :
  map_Forall (fun _ s => session_consistent s) (sessions st) ->
  map_Forall (fun _ s => session_consistent s) (sessions (serve requests st)).
Proof.
  revert st. induction requests as [|request rest IH]; intros st H; [done|].
  simpl. by apply IH, process_legal_query_consistent.
Qed.

(** C9: after any sequence of requests served from the empty store, every
    session of the store is consistent: the references and cases held in its
    [current_context] are its [references] and [cases] fields, and the length
    of its [history] is even. *)
Theorem sessions_consistent_after_turns
    (requests : list ProcessQueryRequest) (w : World) (log : list Call) :
  forall session_id session,
    sessions (serve requests {| sessions := ∅; world := w; calls := log |}) !! session_id
      = Some session ->
    (forall ctx, current_context session = Some ctx ->
       references session = Some (ctx_references ctx) /\
       cases session = Some (ctx_cases ctx)) /\
    Nat.Even (length (history session)).
Proof.
  intros session_id session Hlook.
  assert (Hc : session_consistent session).
  { eapply (serve_consistent requests); [|exact Hlook]. simpl. apply map_Forall_empty. }
  destruct Hc as [Hctx Heven]. split; [|done].
  intros ctx E. by rewrite E in Hctx.
Qed.

(** *** Further properties of the components *)

(** X1: sanitizing a sanitized string escapes it once more and changes nothing
    else: the whitespace normalisation is idempotent. *)
Theorem sanitize_query_twice_escapes (s : str) :
  sanitize_query (sanitize_query s) = html_escape (sanitize_query s) /\
  normalize (normalize s) = normalize s.
Proof. split; [apply sanitize_query_twice|apply normalize_idem]. Qed.

(** X2: the session store.  [get_session] never fails: it returns the entry of
    the key, which the store holds afterwards, and creates a fresh one only
    when the key was unknown.  [update] never fails: it replaces
    [current_context], [references] and [cases], appends exactly two turns
    (user, then assistant) to the history, and touches no other session. *)
Theorem session_store_contract (session_id query ans : str)
    (refs : list Reference) (cs : list Case) (st : State) :
  (exists s st',
     get_session session_id st = (Ok s, st') /\
     sessions st' !! session_id = Some s /\
     (forall s0, sessions st !! session_id = Some s0 -> s = s0 /\ st' = st) /\
     (sessions st !! session_id = None ->
        s = fresh_session /\ sessions st' = <[session_id := fresh_session]> (sessions st))) /\
  (exists st',
     update session_id query ans refs cs st = (Ok tt, st') /\
     sessions st' !! session_id =
       Some {| current_context := Some {| ctx_query := query; ctx_answer := ans;
                                          ctx_references := refs; ctx_cases := cs |};
               references := Some refs;
               cases := Some cs;
               history := history (session_of session_id (sessions st))
                          ++ [(user, query); (assistant, ans)] |} /\
     (forall other, other <> session_id -> sessions st' !! other = sessions st !! other) /\
     world st' = world st /\ calls st' = calls st).
Proof.
  split.
  - eexists _, _. split; [apply get_session_run|]. simpl.
    split; [apply session_of_ensure|]. unfold session_of, ensure_session, set_sessions.
    split.
    + intros s0 ->. split; [done|]. by destruct st.
    + by intros ->.
  - eexists. split; [apply update_run|]. simpl.
    split; [apply lookup_insert_eq|]. split; [|done].
    intros other Hne. by rewrite lookup_insert_ne.
Qed.

(** X3: the references built for the retrieved sections: one per section, in
    order, with the section's act and number, and the text cut to 300
    characters followed by "...", so at most 303 characters. *)
Theorem reference_full_text_bound (sections : list (RetrievedSection Score)) (st : State) :
  exists refs st',
    build_references sections st = (Ok refs, st') /\
    Forall2 (fun s ref =>
               ref_act ref = rs_act s /\
               ref_section_number ref = rs_section_number s /\
               ref_full_text ref = take 300 (rs_text s) ++ lit "...")
            sections refs /\
    Forall (fun ref => (length (ref_full_text ref) <= 303)%nat) refs.
Proof.
  revert st. induction sections as [|s rest IH]; intros st.
  - exists [], st. by repeat split.
  - cbn [build_references].
    destruct (returns_generate_legal_analysis (rs_text s) (rs_act s) (rs_section_number s) st)
      as (summary & st1 & Hrun & _).
    destruct (IH st1) as (refs & st2 & Hrest & Hall & Hlen).
    rewrite (bind_ok _ _ _ _ _ Hrun), (bind_ok _ _ _ _ _ Hrest).
    eexists _, _. split; [reflexivity|]. split.
    + by constructor.
    + constructor; [|done]. cbn [ref_full_text]. rewrite length_app, length_take.
      change (length (lit "...")) with 3%nat. lia.
Qed.

(** X4: the case-law fetcher is best effort: it never raises, returns at most
    [max_results] cases whose titles have at most 80 characters, and returns
    no case when the browser session fails. *)
Theorem case_law_fetch_best_effort (query : str) (max_results : nat) (st : State) :
  exists cs st',
    fetch_kanoon_results query max_results st = (Ok cs, st') /\
    (length cs <= max_results)%nat /\
    Forall (fun case => (length (title case) <= 80)%nat) cs /\
    (forall e w, kanoon_search (world st) query = (Raise e, w) -> cs = []).
Proof.
  destruct (fetch_kanoon_results_titles query max_results st) as (cs & st' & Hrun & Hn & Ht).
  exists cs, st'. repeat split; try done.
  intros e w Hfail. revert Hrun.
  unfold fetch_kanoon_results, try_except, bind, call_browser, ret. rewrite Hfail.
  by intros [= <- _].
Qed.

(** X5: when the base answer has at least three non-empty lines, the composed
    response starts with the "Immediate Steps" header and exactly three bullet
    lines, one for each of the first three of them, followed by the
    "Relevant Provisions" header. *)
Theorem immediate_steps_three_bullets (base_answer : str) (refs : list Reference)
    (cs : list Case) (st : State) (l1 l2 l3 : str) (more : list str) :
  stripped_lines base_answer = l1 :: l2 :: l3 :: more ->
  exists rest st',
    format_response base_answer refs cs st =
      (Ok (steps_header
           ++ (lit "- " ++ l1) ++ nl ++ (lit "- " ++ l2) ++ nl ++ (lit "- " ++ l3)
           ++ provisions_header ++ rest), st').
Proof.
  intros Hlines.
  destruct (format_response_run base_answer refs cs st) as (rec_text & st' & _ & Hrun).
  rewrite Hrun. unfold response_body. rewrite !append_lines_concat, Hlines.
  cbn [take map join]. eexists _, st'. f_equal. f_equal.
  rewrite <- !(assoc_L (++)). reflexivity.
Qed.

End Properties.

(** ** The shape of sanitized queries and of composed lines *)

Section Shapes.

(** The characters that open or close markup or an attribute value. *)
Definition raw_markup (c : N) : bool :=
  (c =? 60) || (c =? 62) || (c =? 34) || (c =? 39).

Lemma escape_char_no_markup c : Forall (fun d => raw_markup d = false) (escape_char c).
Proof.
  unfold escape_char.
  destruct (c =? 38) eqn:E1; [by repeat constructor|].
  destruct (c =? 60) eqn:E2; [by repeat constructor|].
  destruct (c =? 62) eqn:E3; [by repeat constructor|].
  destruct (c =? 34) eqn:E4; [by repeat constructor|].
  destruct (c =? 39) eqn:E5; [by repeat constructor|].
  repeat constructor. unfold raw_markup. by rewrite E2, E3, E4, E5.
Qed.

Lemma html_escape_no_markup s : Forall (fun d => raw_markup d = false) (html_escape s).
Proof.
  induction s as [|c s IH]; [constructor|]. cbn [html_escape].
  apply Forall_app. split; [apply escape_char_no_markup|done].
Qed.

Lemma collapse_Forall (P : N -> Prop) b s :
  P 32 -> Forall P s -> Forall P (collapse b s).
Proof.
  intros H32 H. revert b. induction H as [|c s Hc _ IH]; intros b; [constructor|].
  cbn [collapse]. destruct (is_space c); [destruct b|]; auto.
Qed.

Lemma collapse_plain_spaces b s :
  Forall (fun c => is_space c = true -> c = 32) (collapse b s).
Proof.
  revert b. induction s as [|c s IH]; intros b; [constructor|]. cbn [collapse].
  destruct (is_space c) eqn:Hc; [destruct b|]; auto.
  constructor; [|done]. intros H. congruence.
Qed.

Lemma lstrip_spaces w : Forall (fun x => is_space x = true) w -> lstrip w = [].
Proof. induction 1 as [|c w Hc _ IH]; [done|]. simpl. by rewrite Hc. Qed.

Lemma rstrip_idem s : rstrip (rstrip s) = rstrip s.
Proof.
  destruct (rstrip_form s) as [->|(y & c & Hc & ->)]; [done|].
  apply rstrip_app_nonspace. by repeat constructor.
Qed.

Lemma strip_idem s : strip (strip s) = strip s.
Proof.
  unfold strip at 1. rewrite (lstrip_no_lead (strip s)) by apply no_lead_strip.
  unfold strip. apply rstrip_idem.
Qed.

Lemma strip_sub s c : c ∈ strip s -> c ∈ s.
Proof.
  unfold strip. intros H.
  destruct (lstrip_decomp s) as (w1 & _ & Hs).
  destruct (rstrip_decomp (lstrip s)) as (w2 & _ & Hl).
  rewrite Hs, Hl. set_solver.
Qed.

Lemma split_on_no_sep sep s : Forall (fun piece => sep ∉ piece) (split_on sep s).
Proof.
  induction s as [|c s IH]; simpl.
  - repeat constructor. apply not_elem_of_nil.
  - destruct (N.eqb_spec c sep) as [->|Hne].
    + constructor; [apply not_elem_of_nil|done].
    + destruct (split_on sep s) as [|h t].
      * repeat constructor. apply not_elem_of_cons. split; [done|apply not_elem_of_nil].
      * inversion_clear IH as [|? ? Hh Ht]. constructor; [|done].
        apply not_elem_of_cons. by split.
Qed.

(** X6: what [sanitize_query] returns is already trimmed and collapsed
    (stripping it or collapsing its whitespace again changes nothing), its
    only whitespace characters are plain spaces, and it holds none of the
    characters less-than, greater-than, double quote and single quote. *)
Theorem sanitize_query_output_shape (s : str) :
  strip (sanitize_query s) = sanitize_query s /\
  re_sub_spaces (sanitize_query s) = sanitize_query s /\
  Forall (fun c => is_space c = true -> c = 32) (sanitize_query s) /\
  Forall (fun c => c <> 60 /\ c <> 62 /\ c <> 34 /\ c <> 39) (sanitize_query s).
Proof.
  split; [|split; [|split]].
  - by rewrite sanitize_query_normalize, <- strip_escape, strip_normalize.
  - unfold sanitize_query, re_sub_spaces. apply collapse_idem.
  - apply collapse_plain_spaces.
  - eapply Forall_impl.
    + unfold sanitize_query, re_sub_spaces.
      apply (collapse_Forall (fun d => raw_markup d = false)); [done|].
      apply html_escape_no_markup.
    + intros c Hc. unfold raw_markup in Hc.
      repeat split; intros ->; discriminate.
Qed.

(** X7: the lines [format_response] takes from a generated text: each is
    non-empty, trimmed, and holds no line feed. *)
Theorem stripped_lines_shape (text : str) :
  Forall (fun line => line <> [] /\ strip line = line /\ 10 ∉ line) (stripped_lines text).
Proof.
  unfold stripped_lines. apply Forall_forall.
  intros line (piece & -> & [Hne Hin]%list_elem_of_filter)%list_elem_of_fmap.
  split; [done|]. split; [apply strip_idem|].
  intros H%strip_sub. revert H.
  by apply (proj1 (Forall_forall _ _) (split_on_no_sep 10 text)).
Qed.

End Shapes.

(** ** The components, with the capability calls they make *)

Section Components.
Context `{caps : Capabilities}.

(** The prompt of [generate_legal_analysis] for a retrieved section. *)
Definition analysis_input (s : RetrievedSection Score) : str :=
  lit "Explain in one line: " ++ rs_act s ++ lit " Section " ++ rs_section_number s
  ++ lit " - " ++ take 1000 (rs_text s).

(** The prompt of the recommendations pass of [format_response]. *)
Definition recommendations_input (base_answer : str) : str :=
  lit "Generate 3 legal recommendations: " ++ base_answer.

(** The context string of the fresh branch (lines 223-224) and of the
    follow-up branch (lines 206-209). *)
Definition fresh_context (sections : list (RetrievedSection Score)) : str :=
  join nl (map (fun s => rs_act s ++ lit " Section " ++ rs_section_number s
                         ++ lit ": " ++ rs_text s) (take 2 sections)).

Definition follow_up_context (ctx : TurnContext) : str :=
  join nl [lit "Previous: " ++ ctx_query ctx; lit "Answer: " ++ ctx_answer ctx].

(** The reference built from a section and the summary generated for it. *)
Definition reference_of (s : RetrievedSection Score) (ref : Reference) : Prop :=
  ref_act ref = rs_act s /\
  ref_section_number ref = rs_section_number s /\
  ref_full_text ref = take 300 (rs_text s) ++ lit "...".

(** A computation that returns after exactly the calls [log], and leaves the
    session store as it was. *)
Definition returns_logging {A} (m : M A) (log : list Call) (P : A -> Prop) : Prop :=
  forall st, exists a st',
    m st = (Ok a, st') /\ P a /\
    sessions st' = sessions st /\ calls st' = calls st ++ log.

Lemma generate_with_bart_logging input_text max_length :
  returns_logging (generate_with_bart input_text max_length)
    [CallGenerate input_text max_length] (fun _ => True).
Proof. intros st. eexists _, _. split; [apply generate_with_bart_run|done]. Qed.

Lemma generate_direct_answer_logging query context :
  returns_logging (generate_direct_answer query context)
    [CallGenerate (direct_answer_input query context) 200] (fun ans => ans <> []).
Proof.
  intros st. unfold generate_direct_answer.
  rewrite (bind_ok _ _ _ _ _ (generate_with_bart_run _ _ _)). unfold ret.
  eexists _, _. split; [reflexivity|]. split; [|done].
  by destruct (bart_generate _ _ _).1 as [[|c t]|e].
Qed.

Lemma build_references_logging sections :
  returns_logging (build_references sections)
    (map (fun s => CallGenerate (analysis_input s) 100) sections)
    (fun refs => Forall2 reference_of sections refs).
Proof.
  induction sections as [|s rest IH]; intros st.
  - exists [], st. split; [done|]. split; [constructor|]. split; [done|].
    simpl. by rewrite (right_id_L [] (++)).
  - cbn [build_references]. unfold generate_legal_analysis.
    rewrite (bind_ok _ _ _ _ _ (generate_with_bart_run _ _ _)).
    match goal with |- context [bind (build_references rest) _ ?st1] =>
      destruct (IH st1) as (refs & st2 & Hrun & Hrefs & Hs & Hc) end.
    rewrite (bind_ok _ _ _ _ _ Hrun). unfold ret.
    eexists _, _. split; [reflexivity|]. split; [by constructor|].
    split; [by rewrite Hs|]. rewrite Hc. simpl. by rewrite <- (assoc_L (++)).
Qed.

Lemma fetch_kanoon_results_logging query max_results :
  returns_logging (fetch_kanoon_results query max_results) [CallBrowser query]
    (fun cs => (length cs <= max_results)%nat /\
               Forall (fun case => (length (title case) <= 80)%nat) cs).
Proof.
  intros st. unfold fetch_kanoon_results, try_except, bind, call_browser, ret.
  destruct (kanoon_search (world st) query) as [[anchors|e] w]; eexists _, _;
    (split; [reflexivity|]); (split; [|done]).
  - split.
    + rewrite length_map, length_take. lia.
    + apply Forall_forall. intros case (r & -> & _)%list_elem_of_fmap. simpl.
      rewrite length_take. lia.
  - split; [simpl; lia|constructor].
Qed.

Lemma fetch_kanoon_results_failing query max_results st :
  (exists e w, kanoon_search (world st) query = (Raise e, w)) ->
  (fetch_kanoon_results query max_results st).1 = Ok [].
Proof.
  intros (e & w & H).
  unfold fetch_kanoon_results, try_except, bind, call_browser, ret. by rewrite H.
Qed.

(** The composed text, section after section. *)
Definition layout (base_answer : str) (refs : list Reference) (rec_text : str)
    (cs : list Case) : str :=
  steps_header
  ++ join nl (map (fun step => lit "- " ++ step) (take 3 (stripped_lines base_answer)))
  ++ provisions_header
  ++ concat (map provision_line (take 3 refs))
  ++ recommendations_header
  ++ concat (map recommendation_line (take 3 (stripped_lines rec_text)))
  ++ match cs with
     | [] => []
     | _ :: _ => cases_header ++ concat (map case_line (take 2 cs))
     end.

Lemma format_response_logging base_answer refs cs :
  returns_logging (format_response base_answer refs cs)
    [CallGenerate (recommendations_input base_answer) 150]
    (fun text => exists rec_text, text = layout base_answer refs rec_text cs).
Proof.
  intros st. destruct (format_response_run base_answer refs cs st)
    as (rec_text & st' & Hgen & Hrun).
  rewrite generate_with_bart_run in Hgen. injection Hgen as <- <-.
  eexists _, _. split; [exact Hrun|]. split; [|done].
  eexists. unfold layout, response_body. rewrite !append_lines_concat.
  by rewrite <- !(assoc_L (++)).
Qed.

(** X8: [format_response] never fails and lays the response out in a fixed
    order: the steps header and at most three bullets, the provisions header
    and at most three provisions, the recommendations header and at most three
    recommendations, then the cases header and at most two cases when there is
    a case.  A header is written even when its section has no item.  The only
    capability call is the one generation of the recommendations, with a
    budget of 150, and the session store is not touched. *)
Theorem format_response_layout (base_answer : str) (refs : list Reference)
    (cs : list Case) (st : State) :
  exists rec_text st',
    generate_with_bart (lit "Generate 3 legal recommendations: " ++ base_answer) 150 st
      = (Ok rec_text, st') /\
    format_response base_answer refs cs st =
      (Ok (steps_header
           ++ join nl (map (fun step => lit "- " ++ step)
                           (take 3 (stripped_lines base_answer)))
           ++ provisions_header
           ++ concat (map provision_line (take 3 refs))
           ++ recommendations_header
           ++ concat (map recommendation_line (take 3 (stripped_lines rec_text)))
           ++ match cs with
              | [] => []
              | _ :: _ => cases_header ++ concat (map case_line (take 2 cs))
              end), st') /\
    sessions st' = sessions st /\
    calls st' =
      calls st ++ [CallGenerate (lit "Generate 3 legal recommendations: " ++ base_answer) 150].
Proof.
  destruct (format_response_run base_answer refs cs st) as (rec_text & st' & Hgen & Hrun).
  exists rec_text, st'. split; [done|]. split.
  - rewrite Hrun. unfold response_body. rewrite !append_lines_concat.
    by rewrite <- !(assoc_L (++)).
  - rewrite generate_with_bart_run in Hgen. by injection Hgen as <- <-.
Qed.

(** X9: the edge of an empty composition: when the base answer has no
    non-empty line, there are no references and no cases, and the
    recommendations pass fails or gives no non-empty line, the response is
    the three headers and nothing else. *)
Theorem format_response_headers_only (base_answer : str) (st : State) :
  stripped_lines base_answer = [] ->
  (forall text w,
     bart_generate (world st) (lit "Generate 3 legal recommendations: " ++ base_answer) 150
       = (Ok text, w) -> stripped_lines text = []) ->
  (format_response base_answer [] [] st).1
    = Ok (steps_header ++ provisions_header ++ recommendations_header).
Proof.
  intros Hbase Hrec.
  destruct (format_response_run base_answer [] [] st) as (rec_text & st' & Hgen & Hrun).
  rewrite Hrun. cbn [fst]. f_equal. unfold response_body.
  rewrite !append_lines_concat, Hbase.
  assert (stripped_lines rec_text = []) as ->.
  { rewrite generate_with_bart_run in Hgen. injection Hgen as <- _.
    destruct (bart_generate _ _ _) as [[text|e] w] eqn:E; cbn [fst]; [|done].
    by eapply Hrec. }
  cbn [take map join concat]. by rewrite !(right_id_L [] (++)), <- !(assoc_L (++)).
Qed.

(** *** Retriever *)

Lemma py_getitem_nonneg {A} (l : list A) (i : Z) :
  (0 <= i < Z.of_nat (length l))%Z ->
  exists x, l !! Z.to_nat i = Some x /\ py_getitem l i = Ok x.
Proof.
  intros Hi. unfold py_getitem.
  destruct (Z.ltb_spec i 0) as [?|_]; [lia|].
  destruct (Z.leb_spec 0 i) as [_|?]; [|lia].
  destruct (Z.ltb_spec i (Z.of_nat (length l))) as [_|?]; [|lia]. simpl.
  destruct (l !! Z.to_nat i) as [x|] eqn:E; [by exists x|].
  apply lookup_ge_None in E. lia.
Qed.

Lemma py_getitem_negative {A} (l : list A) (i : Z) :
  (- Z.of_nat (length l) <= i < 0)%Z ->
  exists x, l !! Z.to_nat (i + Z.of_nat (length l)) = Some x /\ py_getitem l i = Ok x.
Proof.
  intros Hi. unfold py_getitem.
  destruct (Z.ltb_spec i 0) as [_|?]; [|lia].
  destruct (Z.leb_spec 0 (i + Z.of_nat (length l))) as [_|?]; [|lia].
  destruct (Z.ltb_spec (i + Z.of_nat (length l)) (Z.of_nat (length l))) as [_|?]; [|lia].
  simpl. destruct (l !! Z.to_nat (i + Z.of_nat (length l))) as [x|] eqn:E; [by exists x|].
  apply lookup_ge_None in E. lia.
Qed.

Lemma py_getitem_out_of_range {A} (l : list A) (i : Z) :
  (i < - Z.of_nat (length l) \/ Z.of_nat (length l) <= i)%Z ->
  py_getitem l i = Raise (Error (lit "list index out of range")).
Proof.
  intros Hi. unfold py_getitem.
  destruct (Z.ltb_spec i 0) as [?|?].
  - destruct (Z.leb_spec 0 (i + Z.of_nat (length l))) as [?|?]; [lia|done].
  - destruct (Z.leb_spec 0 i) as [_|?]; [|lia].
    destruct (Z.ltb_spec i (Z.of_nat (length l))) as [?|?]; [lia|done].
Qed.

Lemma py_getitem_ok_range {A} (l : list A) (i : Z) x :
  py_getitem l i = Ok x -> (- Z.of_nat (length l) <= i < Z.of_nat (length l))%Z.
Proof.
  intros H.
  destruct (Z_lt_le_dec i (- Z.of_nat (length l))) as [?|?];
    [by rewrite py_getitem_out_of_range in H by lia|].
  destruct (Z_lt_le_dec i (Z.of_nat (length l))) as [?|?]; [lia|].
  by rewrite py_getitem_out_of_range in H by lia.
Qed.

(** The section a hit stands for. *)
Definition hit_of (sd : SectionRecord) (score : Score) : RetrievedSection Score :=
  {| rs_act := sd_act sd; rs_section_number := sd_section_number sd;
     rs_text := sd_full_text sd; rs_score := score |}.

Lemma collect_sections_ok D0 i I0 rs :
  collect_sections D0 i I0 = Ok rs ->
  length rs = length I0 /\
  forall j idx, I0 !! j = Some idx ->
    exists sd score,
      py_getitem section_data idx = Ok sd /\
      D0 !! (i + j)%nat = Some score /\
      rs !! j = Some (hit_of sd score).
Proof.
  revert i rs. induction I0 as [|idx0 I0 IH]; intros i rs; cbn [collect_sections].
  - intros [= <-]. split; [done|]. by intros j idx.
  - destruct (py_getitem section_data idx0) as [sd|e] eqn:Hsd; [|done].
    destruct (D0 !! i) as [score|] eqn:Hscore; [|done].
    destruct (collect_sections D0 (S i) I0) as [tl|e] eqn:Htl; [|done].
    intros [= <-]. destruct (IH _ _ Htl) as [Hlen Hhits].
    split; [simpl; by rewrite Hlen|].
    intros [|j] idx Hj.
    + injection Hj as <-. exists sd, score. by rewrite Nat.add_0_r.
    + destruct (Hhits j idx Hj) as (sd' & score' & ? & Hd & ?).
      exists sd', score'. by rewrite Nat.add_succ_r.
Qed.

Lemma collect_sections_total D0 i I0 :
  Forall (fun idx => (- Z.of_nat (length section_data) <= idx
                      < Z.of_nat (length section_data))%Z) I0 ->
  (i + length I0 <= length D0)%nat ->
  exists rs, collect_sections D0 i I0 = Ok rs.
Proof.
  intros Hall. revert i. induction Hall as [|idx I0 Hidx _ IH]; intros i Hlen.
  - by exists [].
  - cbn [collect_sections]. simpl in Hlen.
    assert (exists sd, py_getitem section_data idx = Ok sd) as [sd ->].
    { destruct (Z_lt_le_dec idx 0).
      - destruct (py_getitem_negative section_data idx) as (sd & _ & ?); [lia|eauto].
      - destruct (py_getitem_nonneg section_data idx) as (sd & _ & ?); [lia|eauto]. }
    destruct (D0 !! i) as [score|] eqn:Hscore; cycle 1.
    { apply lookup_ge_None in Hscore. lia. }
    destruct (IH (S i)) as [tl ->]; [lia|]. eauto.
Qed.

(** X10: the retriever.  After one search call (and nothing else),
    [find_relevant_sections] succeeds exactly when every index of the row
    [I[0]] is a valid index into [section_data] (negative ones included, which
    count from the end) and the row [D[0]] is at least as long; it then
    returns one section per index, in the order of the row: the [j]-th one is
    the record [section_data[I[0][j]]] with the score [D[0][j]]. *)
Theorem find_relevant_sections_hits (query : str) (k : nat) (st : State)
    (D0 : list Score) (I0 : list Z) (w : World) :
  index_search (world st) query k = (Ok (D0, I0), w) ->
  exists r st',
    find_relevant_sections query k st = (r, st') /\
    sessions st' = sessions st /\
    world st' = w /\
    calls st' = calls st ++ [CallSearch query k] /\
    ((exists rs, r = Ok rs) <->
     Forall (fun idx => (- Z.of_nat (length section_data) <= idx
                         < Z.of_nat (length section_data))%Z) I0 /\
     (length I0 <= length D0)%nat) /\
    (forall rs, r = Ok rs ->
       length rs = length I0 /\
       forall j idx, I0 !! j = Some idx ->
         exists sd score,
           py_getitem section_data idx = Ok sd /\
           D0 !! j = Some score /\
           rs !! j = Some {| rs_act := sd_act sd;
                             rs_section_number := sd_section_number sd;
                             rs_text := sd_full_text sd;
                             rs_score := score |}).
Proof.
  intros Hsearch. eexists _, _. split.
  { unfold find_relevant_sections, bind, call_search, lift. rewrite Hsearch.
    cbn [fst snd]. reflexivity. }
  split; [done|]. split; [done|]. split; [done|]. split.
  - split.
    + intros [rs Hrs]. destruct (collect_sections_ok _ _ _ _ Hrs) as [Hlen Hhits]. split.
      * apply Forall_forall. intros idx [j Hj]%list_elem_of_lookup.
        destruct (Hhits j idx Hj) as (sd & _ & Hsd & _).
        by apply py_getitem_ok_range in Hsd.
      * destruct (decide (length I0 <= length D0)%nat) as [|Hgt]; [done|].
        destruct (lookup_lt_is_Some_2 I0 (length D0)) as [idx Hj]; [lia|].
        destruct (Hhits _ idx Hj) as (_ & score & _ & Hd%lookup_lt_Some & _).
        simpl in Hd. lia.
    + intros [Hall Hlen]. by apply collect_sections_total.
  - intros rs Hrs. apply (collect_sections_ok _ _ _ _ Hrs).
Qed.

(** X11: an index of -1, with which the search marks a neighbour it did not
    find, is not an error for a non-empty [section_data]: the lookup wraps
    around, and the section returned at that position is the last record of
    the corpus. *)
Theorem missing_neighbour_is_last_section (query : str) (k : nat) (st : State)
    (rs : list (RetrievedSection Score)) (j : nat) (r : RetrievedSection Score) :
  (find_relevant_sections query k st).1 = Ok rs ->
  (exists D0 I0 w,
     index_search (world st) query k = (Ok (D0, I0), w) /\ I0 !! j = Some (-1)%Z) ->
  rs !! j = Some r ->
  exists sd,
    last section_data = Some sd /\
    rs_act r = sd_act sd /\
    rs_section_number r = sd_section_number sd /\
    rs_text r = sd_full_text sd.
Proof.
  intros Hrun (D0 & I0 & w & Hsearch & Hj) Hr.
  unfold find_relevant_sections, bind, call_search, lift in Hrun. rewrite Hsearch in Hrun.
  cbn [fst snd] in Hrun.
  destruct (collect_sections_ok _ _ _ _ Hrun) as [_ Hhits].
  destruct (Hhits j _ Hj) as (sd & score & Hsd & _ & Hrs).
  rewrite Hr in Hrs. injection Hrs as ->.
  exists sd. split; [|done].
  pose proof (py_getitem_ok_range _ _ _ Hsd) as Hrange.
  destruct (py_getitem_negative section_data (-1)) as (sd' & Hlook & Hsd'); [lia|].
  rewrite Hsd in Hsd'. injection Hsd' as <-.
  rewrite last_lookup. rewrite <- Hlook. f_equal. lia.
Qed.

End Components.

(** ** The handler, branch by branch *)

Section Handler.
Context `{caps : Capabilities}.

(** What is known of the arguments of every [update] the handler makes. *)
Record recorded (query ans : str) (refs : list Reference) (cs : list Case) : Prop := {
  recorded_query_length : (3 <= len query)%nat;
  recorded_query_sanitized : exists raw, query = sanitize_query raw;
  recorded_answer : exists rest, ans = steps_header ++ rest;
  recorded_references : (length refs <= 2)%nat;
  recorded_full_texts : Forall (fun ref => (length (ref_full_text ref) <= 303)%nat) refs;
  recorded_cases : (length cs <= 3)%nat;
  recorded_titles : Forall (fun case => (length (title case) <= 80)%nat) cs
}.

Lemma reference_of_length s ref :
  reference_of s ref -> (length (ref_full_text ref) <= 303)%nat.
Proof.
  intros (_ & _ & ->). rewrite length_app, length_take.
  change (length (lit "...")) with 3%nat. lia.
Qed.

(** The fresh branch, once the retrieval has returned a section. *)
Lemma fresh_run request st s0 ss st2 :
  let sid := req_session_id request in
  let query := sanitize_query (req_query request) in
  let session := session_of sid (sessions st) in
  let st1 := set_sessions (ensure_session sid (sessions st)) st in
  (3 <= len query)%nat ->
  is_follow_up query session = false ->
  find_relevant_sections query 5 st1 = (Ok (s0 :: ss), st2) ->
  exists base refs cs rec_text st5 st',
    process_legal_query request st =
      (Ok {| answer := layout base refs rec_text cs; resp_references := refs;
             resp_cases := cs; resp_is_follow_up := false; resp_session_id := sid |}, st') /\
    base <> [] /\
    Forall2 reference_of (take 2 (s0 :: ss)) refs /\
    (fetch_kanoon_results query 3 st5).1 = Ok cs /\
    (length cs <= 3)%nat /\
    Forall (fun case => (length (title case) <= 80)%nat) cs /\
    sessions st' =
      <[sid := updated_session session query (layout base refs rec_text cs) refs cs]>
        (sessions st) /\
    calls st' =
      calls st2
      ++ [CallGenerate (direct_answer_input query (fresh_context (s0 :: ss))) 200]
      ++ map (fun s => CallGenerate (analysis_input s) 100) (take 2 (s0 :: ss))
      ++ [CallBrowser query; CallGenerate (recommendations_input base) 150].
Proof.
  intros sid query session st1 Hlen%Nat.ltb_ge Hfu Hfind.
  pose proof (quiet_find_relevant_sections query 5 st1) as Hq.
  rewrite Hfind in Hq. cbn [snd] in Hq.
  destruct (generate_direct_answer_logging query (fresh_context (s0 :: ss)) st2)
    as (base & st3 & Hrun3 & Hbase & Hs3 & Hc3).
  destruct (build_references_logging (take 2 (s0 :: ss)) st3)
    as (refs & st4 & Hrun4 & Hrefs & Hs4 & Hc4).
  destruct (fetch_kanoon_results_logging query 3 st4)
    as (cs & st5 & Hrun5 & [Hncs Htitles] & Hs5 & Hc5).
  destruct (format_response_logging base refs cs st5)
    as (text & st6 & Hrun6 & [rec_text ->] & Hs6 & Hc6).
  exists base, refs, cs, rec_text, st4. eexists. split; [|split; [done|]].
  - unfold process_legal_query, process_legal_query_body. apply try_except_ok.
    rewrite (bind_ok _ _ _ _ _ (get_session_run _ st)).
    fold sid query session st1. rewrite Hlen, Hfu.
    rewrite (bind_ok _ _ _ _ _ Hfind). fold (fresh_context (s0 :: ss)).
    rewrite (bind_ok _ _ _ _ _ Hrun3), (bind_ok _ _ _ _ _ Hrun4).
    rewrite (bind_ok _ _ _ _ _ Hrun5), (bind_ok _ _ _ _ _ Hrun6).
    rewrite (bind_ok _ _ _ _ _ (update_run _ _ _ _ _ _)). reflexivity.
  - split; [done|]. split; [by rewrite Hrun5|]. split; [done|]. split; [done|].
    cbn [sessions calls set_sessions]. split.
    + rewrite Hs6, Hs5, Hs4, Hs3, Hq. unfold st1. cbn [sessions set_sessions].
      rewrite insert_ensure. do 2 f_equal. unfold session_of. by rewrite session_of_ensure.
    + rewrite Hc6, Hc5, Hc4, Hc3. by rewrite <- !(assoc_L (++)).
Qed.

Lemma find_relevant_sections_calls query k st :
  calls (find_relevant_sections query k st).2 = calls st ++ [CallSearch query k].
Proof.
  unfold find_relevant_sections, bind, call_search, lift.
  by destruct (index_search _ _ _) as [[DI|e] w].
Qed.

(** X12: on the fresh branch, generation and scraping failures never abort a
    request: as soon as the retrieval returns at least one section, the
    request succeeds with [is_follow_up] false and the request's session id,
    one reference per section for the first two sections (act and number of
    the section, text cut to 300 characters and "..."), at most three cases
    with titles of at most 80 characters, and an answer that starts with the
    steps header; the session then holds exactly this turn: the sanitized
    query, the answer, the references and the cases of the response, and two
    more turns in its history. *)
Theorem fresh_request_succeeds (request : ProcessQueryRequest) (st : State)
    (s0 : RetrievedSection Score) (ss : list (RetrievedSection Score)) (st2 : State) :
  let sid := req_session_id request in
  let query := sanitize_query (req_query request) in
  let session := session_of sid (sessions st) in
  (3 <= len query)%nat ->
  is_follow_up query session = false ->
  find_relevant_sections query 5 (set_sessions (ensure_session sid (sessions st)) st)
    = (Ok (s0 :: ss), st2) ->
  exists resp st',
    process_legal_query request st = (Ok resp, st') /\
    resp_is_follow_up resp = false /\
    resp_session_id resp = sid /\
    Forall2 (fun s ref =>
               ref_act ref = rs_act s /\
               ref_section_number ref = rs_section_number s /\
               ref_full_text ref = take 300 (rs_text s) ++ lit "...")
            (take 2 (s0 :: ss)) (resp_references resp) /\
    (length (resp_cases resp) <= 3)%nat /\
    Forall (fun case => (length (title case) <= 80)%nat) (resp_cases resp) /\
    (exists rest, answer resp = steps_header ++ rest) /\
    sessions st' !! sid =
      Some {| current_context :=
                Some {| ctx_query := query; ctx_answer := answer resp;
                        ctx_references := resp_references resp;
                        ctx_cases := resp_cases resp |};
              references := Some (resp_references resp);
              cases := Some (resp_cases resp);
              history := history session ++ [(user, query); (assistant, answer resp)] |}.
Proof.
  intros sid query session Hlen Hfu Hfind.
  destruct (fresh_run request st s0 ss st2 Hlen Hfu Hfind)
    as (base & refs & cs & rec_text & st5 & st' & Hrun & _ & Hrefs & _ & Hn & Ht & Hs & _).
  eexists _, st'. split; [exact Hrun|]. cbn [resp_is_follow_up resp_session_id
    resp_references resp_cases answer].
  repeat (split; [done|]). split; [by eexists|].
  fold sid in Hs. rewrite Hs. apply lookup_insert_eq.
Qed.

(** X13: the capability calls of a successful fresh request, in order: the
    index search for the sanitized query with k = 5; the generation of the
    direct answer (budget 200) from the query and the first two sections; one
    generation of an analysis (budget 100) per section for the first two
    sections, in order; the browser search for the sanitized query; the
    generation of the recommendations (budget 150), whose prompt is built from
    the base answer, which is what [generate_direct_answer] returned for the
    query and those sections when it was called after the retrieval; the base
    answer is also what the steps of the response's answer are taken from. *)
Theorem fresh_request_calls (request : ProcessQueryRequest) (st : State)
    (s0 : RetrievedSection Score) (ss : list (RetrievedSection Score)) (st2 : State) :
  let sid := req_session_id request in
  let query := sanitize_query (req_query request) in
  (3 <= len query)%nat ->
  is_follow_up query (session_of sid (sessions st)) = false ->
  find_relevant_sections query 5 (set_sessions (ensure_session sid (sessions st)) st)
    = (Ok (s0 :: ss), st2) ->
  exists base st3 resp rec_text,
    generate_direct_answer query (fresh_context (s0 :: ss)) st2 = (Ok base, st3) /\
    (process_legal_query request st).1 = Ok resp /\
    answer resp = layout base (resp_references resp) rec_text (resp_cases resp) /\
    calls (process_legal_query request st).2 =
      calls st
      ++ [CallSearch query 5;
          CallGenerate (direct_answer_input query (fresh_context (s0 :: ss))) 200]
      ++ map (fun s => CallGenerate (analysis_input s) 100) (take 2 (s0 :: ss))
      ++ [CallBrowser query;
          CallGenerate (lit "Generate 3 legal recommendations: " ++ base) 150].
Proof.
  intros sid query Hlen Hfu Hfind.
  set (st1 := set_sessions (ensure_session sid (sessions st)) st) in *.
  destruct (generate_direct_answer_logging query (fresh_context (s0 :: ss)) st2)
    as (base & st3 & Hrun3 & _ & _ & Hc3).
  destruct (build_references_logging (take 2 (s0 :: ss)) st3)
    as (refs & st4 & Hrun4 & _ & _ & Hc4).
  destruct (fetch_kanoon_results_logging query 3 st4)
    as (cs & st5 & Hrun5 & _ & _ & Hc5).
  destruct (format_response_logging base refs cs st5)
    as (text & st6 & Hrun6 & [rec_text ->] & _ & Hc6).
  assert (Hrun : exists m,
            process_legal_query request st =
              (Ok {| answer := layout base refs rec_text cs; resp_references := refs;
                     resp_cases := cs; resp_is_follow_up := false;
                     resp_session_id := sid |}, set_sessions m st6)).
  { eexists. unfold process_legal_query, process_legal_query_body. apply try_except_ok.
    rewrite (bind_ok _ _ _ _ _ (get_session_run _ st)).
    fold sid query st1. apply Nat.ltb_ge in Hlen. rewrite Hlen, Hfu.
    rewrite (bind_ok _ _ _ _ _ Hfind). fold (fresh_context (s0 :: ss)).
    rewrite (bind_ok _ _ _ _ _ Hrun3), (bind_ok _ _ _ _ _ Hrun4).
    rewrite (bind_ok _ _ _ _ _ Hrun5), (bind_ok _ _ _ _ _ Hrun6).
    rewrite (bind_ok _ _ _ _ _ (update_run _ _ _ _ _ _)). reflexivity. }
  destruct Hrun as [m Hrun].
  exists base, st3. eexists _, rec_text. split; [exact Hrun3|].
  rewrite Hrun. split; [reflexivity|]. split; [reflexivity|].
  cbn [snd calls set_sessions]. rewrite Hc6, Hc5, Hc4, Hc3.
  pose proof (find_relevant_sections_calls query 5 st1) as Hc2.
  rewrite Hfind in Hc2. cbn [snd] in Hc2. rewrite Hc2.
  unfold st1. cbn [calls set_sessions]. by rewrite <- !(assoc_L (++)).
Qed.

(** X14: when the browser session fails, a fresh request still succeeds: the
    response has no case, and its answer is the layout without the cases
    section. *)
Theorem browser_failure_gives_no_cases (request : ProcessQueryRequest) (st : State)
    (s0 : RetrievedSection Score) (ss : list (RetrievedSection Score)) (st2 : State) :
  let sid := req_session_id request in
  let query := sanitize_query (req_query request) in
  (3 <= len query)%nat ->
  is_follow_up query (session_of sid (sessions st)) = false ->
  find_relevant_sections query 5 (set_sessions (ensure_session sid (sessions st)) st)
    = (Ok (s0 :: ss), st2) ->
  (forall w, exists e w', kanoon_search w query = (Raise e, w')) ->
  exists resp,
    (process_legal_query request st).1 = Ok resp /\
    resp_cases resp = [] /\
    exists base rec_text,
      answer resp =
        steps_header
        ++ join nl (map (fun step => lit "- " ++ step) (take 3 (stripped_lines base)))
        ++ provisions_header
        ++ concat (map provision_line (take 3 (resp_references resp)))
        ++ recommendations_header
        ++ concat (map recommendation_line (take 3 (stripped_lines rec_text))).
Proof.
  intros sid query Hlen Hfu Hfind Hfail.
  destruct (fresh_run request st s0 ss st2 Hlen Hfu Hfind)
    as (base & refs & cs & rec_text & st5 & st' & Hrun & _ & _ & Hfetch & _).
  assert (Hnone : (fetch_kanoon_results query 3 st5).1 = Ok []).
  { apply fetch_kanoon_results_failing.
    destruct (Hfail (world st5)) as (e & w' & ?). eauto. }
  unfold query in Hnone. rewrite Hnone in Hfetch. injection Hfetch as <-.
  eexists. rewrite Hrun. split; [reflexivity|]. split; [reflexivity|].
  exists base, rec_text. cbn [answer resp_references]. unfold layout.
  by rewrite !(right_id_L [] (++)).
Qed.

(** The follow-up branch, with its calls. *)
Lemma follow_up_calls request st :
  let sid := req_session_id request in
  let query := sanitize_query (req_query request) in
  let session := session_of sid (sessions st) in
  (3 <= len query)%nat ->
  is_follow_up query session = true ->
  exists ctx,
    current_context session = Some ctx /\
    calls (process_legal_query request st).2 =
      calls st ++ [CallGenerate (direct_answer_input query (follow_up_context ctx)) 200].
Proof.
  intros sid query session Hlen%Nat.ltb_ge Hfu.
  destruct (is_follow_up_context _ _ Hfu) as [ctx Hctx]. exists ctx. split; [done|].
  unfold process_legal_query, process_legal_query_body, try_except.
  rewrite (bind_ok _ _ _ _ _ (get_session_run _ st)).
  fold sid query session. rewrite Hlen, Hfu.
  unfold subscript_context. rewrite Hctx.
  set (st1 := set_sessions (ensure_session sid (sessions st)) st).
  rewrite (bind_ok _ _ _ ctx st1) by done. fold (follow_up_context ctx).
  destruct (generate_direct_answer_logging query (follow_up_context ctx) st1)
    as (ans & st2 & Hrun & _ & _ & Hc).
  rewrite (bind_ok _ _ _ _ _ Hrun).
  destruct (references session) as [refs|]; cycle 1.
  { unfold bind, lift, validate_list, raise. by cbn [snd]. }
  rewrite (bind_ok _ _ _ refs st2) by done.
  destruct (cases session) as [cs|]; cycle 1.
  { unfold bind, lift, validate_list, raise. by cbn [snd]. }
  rewrite (bind_ok _ _ _ cs st2) by done.
  unfold ret. by cbn [snd].
Qed.

(** X15: a follow-up request makes exactly one capability call: the
    generation of the direct answer (budget 200), whose prompt holds the query
    and, as context, the query and the answer of the session's
    [current_context]; it makes no index search and no browser fetch. *)
Theorem follow_up_single_generation (request : ProcessQueryRequest) (st : State) :
  let sid := req_session_id request in
  let query := sanitize_query (req_query request) in
  let session := session_of sid (sessions st) in
  (3 <= len query)%nat ->
  is_follow_up query session = true ->
  exists ctx,
    current_context session = Some ctx /\
    calls (process_legal_query request st).2 =
      calls st
      ++ [CallGenerate
            (lit "Generate 3 legal steps for: " ++ query ++ lit ". Context: "
             ++ lit "Previous: " ++ ctx_query ctx ++ nl
             ++ lit "Answer: " ++ ctx_answer ctx) 200].
Proof.
  intros sid query session Hlen Hfu.
  destruct (follow_up_calls request st Hlen Hfu) as (ctx & Hctx & Hc).
  exists ctx. split; [done|]. rewrite Hc. reflexivity.
Qed.

Lemma response_fields request st resp :
  (process_legal_query request st).1 = Ok resp ->
  resp_session_id resp = req_session_id request /\
  resp_is_follow_up resp =
    is_follow_up (sanitize_query (req_query request))
      (session_of (req_session_id request) (sessions st)) /\
  (3 <= len (sanitize_query (req_query request)))%nat /\
  answer resp <> [].
Proof.
  intros Hok. pose proof (process_legal_query_outcome request st) as Hout.
  rewrite Hok in Hout.
  inversion Hout as [|? ? Hlen Hfu _ Hrefs Hcs _|? ? Hlen Hfu _ _]; subst.
  - destruct (follow_up_run request st _ _ Hlen Hfu Hrefs Hcs) as (ans & st' & Hrun & Hne & _).
    rewrite Hrun in Hok. injection Hok as <-. by rewrite Hfu.
  - destruct (find_relevant_sections (sanitize_query (req_query request)) 5
                (set_sessions (ensure_session (req_session_id request) (sessions st)) st))
      as [[[|s0 ss]|e] st2] eqn:Hfind.
    + destruct (fresh_retrieval_run request st Hlen Hfu) as [Hnone _].
      by rewrite (Hnone st2 Hfind) in Hok.
    + destruct (fresh_run request st s0 ss st2 Hlen Hfu Hfind)
        as (base & refs & cs & rec_text & st5 & st' & Hrun & _).
      rewrite Hrun in Hok. injection Hok as <-. rewrite Hfu.
      by repeat split.
    + destruct (fresh_retrieval_run request st Hlen Hfu) as [_ Hfail].
      by rewrite (Hfail e st2 Hfind) in Hok.
Qed.

(** X16: every response echoes the session id of its request, carries the
    verdict of the follow-up classifier on the sanitized query and the session
    as it was before the request, and has a non-empty answer; no request with
    a sanitized query shorter than 3 characters is answered with a response.
    The first request on a session key is never answered as a follow-up. *)
Theorem response_flag_and_session_id (request : ProcessQueryRequest) (st : State)
    (resp : ResponseModel) :
  (process_legal_query request st).1 = Ok resp ->
  resp_session_id resp = req_session_id request /\
  resp_is_follow_up resp =
    is_follow_up (sanitize_query (req_query request))
      (session_of (req_session_id request) (sessions st)) /\
  (3 <= len (sanitize_query (req_query request)))%nat /\
  answer resp <> [] /\
  (sessions st !! req_session_id request = None -> resp_is_follow_up resp = false).
Proof.
  intros Hok. destruct (response_fields request st resp Hok) as (Hsid & Hflag & Hlen & Hans).
  repeat split; try done.
  intros Hnone. rewrite Hflag. unfold session_of. by rewrite Hnone.
Qed.

End Handler.

(** ** What the store keeps over a run *)

Section Store.
Context `{caps : Capabilities}.

(** A request leaves the store as the session lookup left it, or writes one
    turn whose parts are [recorded]. *)
Lemma process_legal_query_step request st :
  let sid := req_session_id request in
  let st' := (process_legal_query request st).2 in
  sessions st' = ensure_session sid (sessions st) \/
  exists query ans refs cs,
    recorded query ans refs cs /\
    sessions st' =
      <[sid := updated_session (session_of sid (sessions st)) query ans refs cs]>
        (sessions st).
Proof.
  intros sid st'. unfold st'.
  set (query := sanitize_query (req_query request)).
  destruct (Nat.lt_ge_cases (len query) 3) as [Hshort|Hlen].
  { left. by rewrite (proj2 (short_query_run request st Hshort)). }
  destruct (is_follow_up query (session_of sid (sessions st))) eqn:Hfu.
  - left. pose proof (process_legal_query_outcome request st) as Hout.
    destruct (is_follow_up_context _ _ Hfu) as [ctx Hctx].
    inversion Hout as [? ? Hs|? ? ? ? ? ? ? Hs|? ? ? Hfresh]; subst.
    + done.
    + rewrite Hs. symmetry. eapply session_of_context, Hctx.
    + fold sid query in Hfresh. congruence.
  - destruct (find_relevant_sections query 5
                (set_sessions (ensure_session sid (sessions st)) st))
      as [[[|s0 ss]|e] st2] eqn:Hfind.
    + left. destruct (fresh_retrieval_run request st Hlen Hfu) as [Hnone _].
      rewrite (Hnone st2 Hfind). cbn [snd].
      pose proof (quiet_find_relevant_sections query 5
                    (set_sessions (ensure_session sid (sessions st)) st)) as Hq.
      by rewrite Hfind in Hq.
    + right. destruct (fresh_run request st s0 ss st2 Hlen Hfu Hfind)
        as (base & refs & cs & rec_text & st5 & st3 & Hrun & _ & Hrefs & _ & Hn & Ht & Hs & _).
      exists query, (layout base refs rec_text cs), refs, cs.
      rewrite Hrun. split; [|exact Hs]. split; try done.
      * by exists (req_query request).
      * by eexists.
      * apply Forall2_length in Hrefs. rewrite <- Hrefs, length_take. lia.
      * apply Forall_forall. intros ref [j Hj]%list_elem_of_lookup.
        destruct (Forall2_lookup_r _ _ _ _ _ Hrefs Hj) as (s & _ & Hs').
        by eapply reference_of_length.
    + left. destruct (fresh_retrieval_run request st Hlen Hfu) as [_ Hfail].
      rewrite (Hfail e st2 Hfind). cbn [snd].
      pose proof (quiet_find_relevant_sections query 5
                    (set_sessions (ensure_session sid (sessions st)) st)) as Hq.
      by rewrite Hfind in Hq.
Qed.

(** A property of sessions that the fresh session has and every recorded
    turn keeps holds for every session after any run. *)
Lemma serve_invariant (P : Session -> Prop) :
  P fresh_session ->
  (forall old query ans refs cs,
     P old -> recorded query ans refs cs -> P (updated_session old query ans refs cs)) ->
  forall requests st,
    map_Forall (fun _ s => P s) (sessions st) ->
    map_Forall (fun _ s => P s) (sessions (serve requests st)).
Proof.
  intros Hfresh Hturn requests.
  induction requests as [|request rest IH]; intros st H; [done|].
  cbn [serve]. apply IH.
  destruct (process_legal_query_step request st) as [->|(q & a & refs & cs & Hrec & ->)].
  - unfold ensure_session. destruct (sessions st !! req_session_id request); [done|].
    by apply map_Forall_insert_2.
  - apply map_Forall_insert_2; [|done]. apply Hturn; [|done].
    unfold session_of. destruct (sessions st !! req_session_id request) eqn:E; simpl.
    + by apply (H (req_session_id request)).
    + done.
Qed.

(** The history a list of (query, answer) turns stands for. *)
Definition history_of (turns : list (str * str)) : list (role * str) :=
  concat (map (fun turn => [(user, turn.1); (assistant, turn.2)]) turns).

(** The history is a sequence of (user, assistant) pairs, and the last pair
    is the turn [current_context] holds. *)
Definition history_matches_context (s : Session) : Prop :=
  exists turns,
    history s = history_of turns /\
    match current_context s with
    | None => turns = []
    | Some ctx => last turns = Some (ctx_query ctx, ctx_answer ctx)
    end.

(** X17: after any sequence of requests served from the empty store, the
    history of every session is a sequence of pairs, a user turn followed by
    an assistant turn; a session without [current_context] has an empty
    history, and otherwise the last pair of the history is the query and the
    answer that [current_context] holds. *)
Theorem history_pairs_end_with_context
    (requests : list ProcessQueryRequest) (w : World) (log : list Call)
    (session_id : str) (session : Session) :
  sessions (serve requests {| sessions := ∅; world := w; calls := log |}) !! session_id
    = Some session ->
  exists turns : list (str * str),
    history session
      = concat (map (fun turn => [(user, turn.1); (assistant, turn.2)]) turns) /\
    (current_context session = None -> turns = []) /\
    (forall ctx, current_context session = Some ctx ->
       last turns = Some (ctx_query ctx, ctx_answer ctx)).
Proof.
  intros Hlook.
  assert (H : history_matches_context session).
  { refine (serve_invariant history_matches_context _ _ requests _ _ session_id session Hlook);
      [| |apply map_Forall_empty].
    - by exists [].
    - intros old q a refs cs (turns & Hh & _) _. exists (turns ++ [(q, a)]). split.
      + unfold updated_session, history_of in *. cbn [history].
        rewrite Hh, map_app, concat_app. simpl. done.
      + simpl. by rewrite last_snoc. }
  destruct H as (turns & Hh & Hctx). exists turns. split; [done|].
  destruct (current_context session); split; try done.
  by intros ctx [= <-].
Qed.

Lemma sanitize_query_trimmed s : strip (sanitize_query s) = sanitize_query s.
Proof. by rewrite sanitize_query_normalize, <- strip_escape, strip_normalize. Qed.

(** X18: after any sequence of requests served from the empty store, the turn
    a session holds in [current_context] is bounded: its query is a sanitized
    query (trimmed) of at least 3 characters, its answer starts with the steps
    header, it has at most 2 references, each with a text of at most 303
    characters, and at most 3 cases, each with a title of at most 80
    characters. *)
Theorem stored_turn_bounds
    (requests : list ProcessQueryRequest) (w : World) (log : list Call)
    (session_id : str) (session : Session) (ctx : TurnContext) :
  sessions (serve requests {| sessions := ∅; world := w; calls := log |}) !! session_id
    = Some session ->
  current_context session = Some ctx ->
  (3 <= len (ctx_query ctx))%nat /\
  strip (ctx_query ctx) = ctx_query ctx /\
  (exists rest, ctx_answer ctx = steps_header ++ rest) /\
  (length (ctx_references ctx) <= 2)%nat /\
  Forall (fun ref => (length (ref_full_text ref) <= 303)%nat) (ctx_references ctx) /\
  (length (ctx_cases ctx) <= 3)%nat /\
  Forall (fun case => (length (title case) <= 80)%nat) (ctx_cases ctx).
Proof.
  intros Hlook Hctx.
  assert (H : forall c, current_context session = Some c ->
                recorded (ctx_query c) (ctx_answer c) (ctx_references c) (ctx_cases c)).
  { refine (serve_invariant (fun s => forall c, current_context s = Some c ->
              recorded (ctx_query c) (ctx_answer c) (ctx_references c) (ctx_cases c))
              _ _ requests _ _ session_id session Hlook); [| |apply map_Forall_empty].
    - done.
    - intros old q a refs cs _ Hrec c [= <-]. exact Hrec. }
  destruct (H ctx Hctx) as [Hlen [raw Hraw] Hans Hrefs Htexts Hcs Htitles].
  repeat split; try done. rewrite Hraw. apply sanitize_query_trimmed.
Qed.

(** X19: a request touches no session but its own: the entry of every other
    key is what it was, and no key leaves the store. *)
Theorem other_sessions_untouched (request : ProcessQueryRequest) (st : State)
    (other : str) :
  other <> req_session_id request ->
  sessions (process_legal_query request st).2 !! other = sessions st !! other /\
  is_Some (sessions (process_legal_query request st).2 !! req_session_id request).
Proof.
  intros Hne.
  destruct (process_legal_query_step request st) as [->|(q & a & refs & cs & _ & ->)].
  - split; [|rewrite session_of_ensure; eauto].
    unfold ensure_session. destruct (sessions st !! req_session_id request); [done|].
    by rewrite lookup_insert_ne.
  - split; [by rewrite lookup_insert_ne|]. rewrite lookup_insert_eq. eauto.
Qed.

Lemma process_legal_query_history request st session_id s :
  sessions st !! session_id = Some s ->
  exists s', sessions (process_legal_query request st).2 !! session_id = Some s' /\
             history s `prefix_of` history s'.
Proof.
  intros Hlook.
  destruct (process_legal_query_step request st) as [->|(q & a & refs & cs & _ & ->)].
  - exists s. split; [|done]. unfold ensure_session.
    destruct (sessions st !! req_session_id request) eqn:E; [done|].
    rewrite lookup_insert_ne; [done|]. congruence.
  - destruct (decide (session_id = req_session_id request)) as [->|Hne].
    + eexists. split; [apply lookup_insert_eq|]. cbn [updated_session history].
      unfold session_of. rewrite Hlook. by apply prefix_app_r.
    + exists s. by rewrite lookup_insert_ne.
Qed.

(** X20: sessions are never evicted and histories are append-only: a session
    that the store holds is still held after any further sequence of
    requests, and its history then starts with the history it had. *)
Theorem history_append_only (requests : list ProcessQueryRequest) (st : State)
    (session_id : str) (session : Session) :
  sessions st !! session_id = Some session ->
  exists session',
    sessions (serve requests st) !! session_id = Some session' /\
    exists more, history session' = history session ++ more.
Proof.
  revert st session. induction requests as [|request rest IH]; intros st session Hlook.
  - exists session. split; [done|]. exists []. by rewrite (right_id_L [] (++)).
  - cbn [serve].
    destruct (process_legal_query_history request st _ _ Hlook) as (s1 & H1 & [k1 Hk1]).
    destruct (IH _ _ H1) as (s2 & H2 & [k2 Hk2]).
    exists s2. split; [done|]. exists (k1 ++ k2). by rewrite Hk2, Hk1, (assoc_L (++)).
Qed.

(** X21: a query of whitespace only is sanitized to the empty string, so the
    request is rejected, with status 500, before any capability is called. *)
Theorem blank_query_rejected (request : ProcessQueryRequest) (st : State) :
  Forall (fun c => is_space c = true) (req_query request) ->
  sanitize_query (req_query request) = [] /\
  http_status (process_legal_query request st).1 = 500%nat /\
  calls (process_legal_query request st).2 = calls st.
Proof.
  intros Hblank.
  assert (Hs : sanitize_query (req_query request) = []).
  { unfold sanitize_query, strip. by rewrite (lstrip_spaces _ Hblank). }
  split; [done|].
  assert (Hshort : (len (sanitize_query (req_query request)) < 3)%nat)
    by (rewrite Hs; simpl; lia).
  by rewrite (proj2 (short_query_run request st Hshort)).
Qed.

End Store.

(** ** The service on concrete requests *)

Section Examples.

(** Scenario A then B of the specification: a fresh query, then a follow-up
    on the same session. *)
Example scenario_fresh :
  exists resp st1,
    process_legal_query (caps := Demo.service) Demo.accident (Demo.initial Demo.service 0%nat)
      = (Ok resp, st1) /\
    resp_is_follow_up resp = false /\
    length (resp_references resp) = 2%nat /\
    map title (resp_cases resp)
      = [lit "Rajesh Kumar vs State Of Himachal Pradesh on 12 September, 2008"] /\
    history (session_of (lit "s1") (sessions st1))
      = [(user, lit "What should I do about a road accident?"); (assistant, answer resp)].
Proof. eexists _, _. split; [vm_compute; reflexivity|]. by vm_compute. Qed.

(** Scenario C: a query of length 2 after sanitization is answered with
    status 500, not 400. *)
Example scenario_short_query :
  sanitize_query (req_query Demo.hi) = lit "hi" /\
  (process_legal_query (caps := Demo.service) Demo.hi (Demo.initial Demo.service 0%nat)).1
    = Raise (HTTPException 500 (lit "400: Please ask a more detailed question.")) /\
  http_status
    (process_legal_query (caps := Demo.service) Demo.hi (Demo.initial Demo.service 0%nat)).1
    = 500%nat.
Proof. by vm_compute. Qed.

(** A score row shorter than the index row: the error is numpy's. *)
Example short_score_row :
  collect_sections (caps := Demo.service) [3%nat] 0 [0; 1]%Z
  = Raise (Error (lit "index 1 is out of bounds for axis 0 with size 1")).
Proof. reflexivity. Qed.

(** A failing generation is absorbed: the fresh answer is still composed. *)
Example scenario_generation_fails :
  exists resp st1,
    process_legal_query (caps := Demo.broken_generation) Demo.accident
      (Demo.initial Demo.broken_generation 0%nat) = (Ok resp, st1) /\
    starts_with (steps_header ++ lit "- Immediate legal steps:") (answer resp) = true.
Proof. eexists _, _. split; [vm_compute; reflexivity|]. by vm_compute. Qed.

(** C2, as the specification states it, fails: after the fresh request
    [Demo.accident], the request [Demo.explain] on the same session is
    answered as a follow-up, and the history of the session is what it was
    before, not that history with the new (query, answer) pair appended. *)
Lemma follow_up_history_not_appended :
  exists resp1 st1 resp2 st2,
    process_legal_query (caps := Demo.service) Demo.accident
      (Demo.initial Demo.service 0%nat) = (Ok resp1, st1) /\
    process_legal_query Demo.explain st1 = (Ok resp2, st2) /\
    resp_is_follow_up resp2 = true /\
    history (session_of (lit "s1") (sessions st2))
      = history (session_of (lit "s1") (sessions st1)) /\
    history (session_of (lit "s1") (sessions st2))
      <> history (session_of (lit "s1") (sessions st1))
         ++ [(user, sanitize_query (req_query Demo.explain)); (assistant, answer resp2)].
Proof.
  eexists _, _, _, _.
  split; [vm_compute; reflexivity|]. split; [vm_compute; reflexivity|].
  split; [reflexivity|]. split; [by vm_compute|].
  intros H%(f_equal length). vm_compute in H. discriminate.
Qed.

Lemma follow_up_leaves_session_witness :
  sessions
    (process_legal_query (caps := Demo.service) Demo.explain
       (serve [Demo.accident] (Demo.initial Demo.service 0%nat))).2
  = sessions (serve (caps := Demo.service) [Demo.accident] (Demo.initial Demo.service 0%nat)).
Proof.
  refine (proj1 (follow_up_leaves_session (caps := Demo.service) Demo.explain
                   (serve [Demo.accident] (Demo.initial Demo.service 0%nat)) _ _)).
  - vm_compute. lia.
  - vm_compute. reflexivity.
Defined.

(** C4, as the specification states it, fails: the fetcher produces a case
    whose title has 63 characters (no more than 80), and the composed response
    does not hold the line "{title} ({url})" for that title: it holds the
    title cut after its 50th character. *)
Lemma related_cases_title_cut_at_50 :
  exists cs st1 text st2,
    fetch_kanoon_results (caps := Demo.service) (lit "road accident") 3
      (Demo.initial Demo.service 0%nat) = (Ok cs, st1) /\
    map title cs = [lit "Rajesh Kumar vs State Of Himachal Pradesh on 12 September, 2008"] /\
    Forall (fun case => (length (title case) <= 80)%nat) cs /\
    format_response (lit "Report the accident to the police.") [] cs st1 = (Ok text, st2) /\
    contains (lit "Rajesh Kumar vs State Of Himachal Pradesh on 12 September, 2008 (https://indiankanoon.org/doc/1/)")
      text = false /\
    contains (lit "- Rajesh Kumar vs State Of Himachal Pradesh on 12 Se (https://indiankanoon.org/doc/1/)")
      text = true.
Proof.
  eexists _, _, _, _.
  split; [vm_compute; reflexivity|]. split; [reflexivity|].
  split; [repeat constructor; vm_compute; lia|].
  split; [vm_compute; reflexivity|]. by vm_compute.
Qed.

Lemma related_cases_rendering_witness :
  exists body st',
    format_response (caps := Demo.service) (lit "Report the accident to the police.") []
      [{| title := lit "Rajesh Kumar vs State"; url := None |}]
      (Demo.initial Demo.service 0%nat)
    = (Ok (body ++ cases_header ++ lit (String "010" "- Rajesh Kumar vs State (None)")), st').
Proof.
  destruct (related_cases_rendering (caps := Demo.service)
              (lit "Report the accident to the police.") []
              [{| title := lit "Rajesh Kumar vs State"; url := None |}]
              (Demo.initial Demo.service 0%nat) ltac:(discriminate))
    as (body & st' & _ & H & _).
  exists body, st'. exact H.
Defined.

Lemma fresh_failure_leaves_session_witness :
  (process_legal_query (caps := Demo.broken_index) Demo.accident
     (Demo.initial Demo.broken_index 0%nat)).1
  = Raise (HTTPException 500 (lit "index unavailable")).
Proof.
  refine (proj1 (proj2 (fresh_failure_leaves_session (caps := Demo.broken_index)
                          Demo.accident (Demo.initial Demo.broken_index 0%nat) _ _))
            (Error (lit "index unavailable")) 1%nat _).
  - vm_compute. lia.
  - vm_compute. reflexivity.
  - vm_compute. reflexivity.
Defined.

Lemma short_query_rejected_witness :
  exists st',
    process_legal_query (caps := Demo.service) Demo.hi (Demo.initial Demo.service 0%nat)
      = (Raise (HTTPException 500 (lit "400: Please ask a more detailed question.")), st') /\
    calls st' = [] /\ world st' = 0%nat.
Proof.
  destruct (short_query_rejected_before_collaborators (caps := Demo.service) Demo.hi
              (Demo.initial Demo.service 0%nat))
    as (st' & _ & Hrun & _ & Hcalls & Hworld).
  - vm_compute. lia.
  - exists st'. split; [exact Hrun|]. split; [exact Hcalls|exact Hworld].
Defined.

Lemma short_query_creates_session_witness :
  sessions
    (process_legal_query (caps := Demo.service) Demo.hi (Demo.initial Demo.service 0%nat)).2
    !! lit "s1"
  = Some {| current_context := None; references := None; cases := None; history := [] |}.
Proof.
  refine (proj2 (proj2 (short_query_creates_session (caps := Demo.service) Demo.hi
                          (Demo.initial Demo.service 0%nat) _ _))).
  - vm_compute. lia.
  - vm_compute. reflexivity.
Defined.

Lemma sessions_consistent_witness :
  exists session,
    sessions (serve (caps := Demo.service) [Demo.accident; Demo.explain; Demo.hi]
                (Demo.initial Demo.service 0%nat)) !! lit "s1" = Some session /\
    length (history session) = 2%nat /\
    Nat.Even (length (history session)).
Proof.
  eexists. split; [vm_compute; reflexivity|]. split; [reflexivity|].
  refine (proj2 (sessions_consistent_after_turns (caps := Demo.service)
                   [Demo.accident; Demo.explain; Demo.hi] 0%nat [] (lit "s1") _ _)).
  vm_compute. reflexivity.
Defined.

Lemma immediate_steps_three_bullets_witness :
  exists rest st',
    format_response (caps := Demo.service)
      (lit "Call the police." ++ nl ++ nl ++ lit "  See a doctor. " ++ nl
       ++ lit "Tell your insurer." ++ nl ++ lit "Keep all bills.")
      [] [] (Demo.initial Demo.service 0%nat)
    = (Ok (steps_header
           ++ (lit "- " ++ lit "Call the police.") ++ nl
           ++ (lit "- " ++ lit "See a doctor.") ++ nl
           ++ (lit "- " ++ lit "Tell your insurer.")
           ++ provisions_header ++ rest), st').
Proof.
  refine (immediate_steps_three_bullets (caps := Demo.service) _ [] []
            (Demo.initial Demo.service 0%nat) _ _ _ [lit "Keep all bills."] _).
  vm_compute. reflexivity.
Defined.

Lemma format_response_headers_only_witness :
  (format_response (caps := Demo.broken_generation) (lit "  ") [] []
     (Demo.initial Demo.broken_generation 0%nat)).1
  = Ok (steps_header ++ provisions_header ++ recommendations_header).
Proof.
  refine (format_response_headers_only (caps := Demo.broken_generation) (lit "  ")
            (Demo.initial Demo.broken_generation 0%nat) _ _).
  - reflexivity.
  - intros text w H. vm_compute in H. discriminate H.
Defined.

Lemma find_relevant_sections_hits_witness :
  exists rs st',
    find_relevant_sections (caps := Demo.service) (lit "road accident") 5
      (Demo.initial Demo.service 0%nat) = (Ok rs, st') /\
    length rs = 2%nat /\
    calls st' = [CallSearch (lit "road accident") 5].
Proof.
  destruct (find_relevant_sections_hits (caps := Demo.service) (lit "road accident") 5
              (Demo.initial Demo.service 0%nat) [3; 7]%nat [0; 1]%Z 1%nat eq_refl)
    as (r & st' & Hrun & _ & _ & Hcalls & [_ Hok] & Hhits).
  destruct Hok as [rs ->].
  - split; [|simpl; lia].
    repeat (apply List.Forall_cons; [simpl; lia|]). apply List.Forall_nil.
  - exists rs, st'. split; [done|]. split; [|done].
    by destruct (Hhits rs eq_refl) as [-> _].
Defined.

Lemma missing_neighbour_witness :
  exists rs r,
    (find_relevant_sections (caps := Demo.sparse_index) (lit "road accident") 5
       (Demo.initial Demo.sparse_index 0%nat)).1 = Ok rs /\
    rs !! 1%nat = Some r /\
    rs_act r = lit "Indian Penal Code".
Proof.
  eexists _, _. split; [vm_compute; reflexivity|]. split; [reflexivity|].
  destruct (missing_neighbour_is_last_section (caps := Demo.sparse_index)
              (lit "road accident") 5 (Demo.initial Demo.sparse_index 0%nat) _ 1%nat _
              eq_refl
              (ex_intro _ [3; 7]%nat (ex_intro _ [0; -1]%Z (ex_intro _ 1%nat
                 (conj eq_refl eq_refl))))
              eq_refl) as (sd & Hlast & Hact & _).
  reflexivity.
Defined.

Lemma fresh_request_succeeds_witness :
  exists resp st',
    process_legal_query (caps := Demo.service) Demo.accident
      (Demo.initial Demo.service 0%nat) = (Ok resp, st') /\
    length (resp_references resp) = 2%nat.
Proof.
  edestruct (fresh_request_succeeds (caps := Demo.service) Demo.accident
               (Demo.initial Demo.service 0%nat))
    as (resp & st' & Hrun & _ & _ & Hrefs & _).
  - vm_compute. lia.
  - vm_compute. reflexivity.
  - vm_compute. reflexivity.
  - exists resp, st'. split; [exact Hrun|].
    apply Forall2_length in Hrefs. rewrite <- Hrefs. reflexivity.
Defined.

Lemma fresh_request_calls_witness :
  exists rest,
    calls (process_legal_query (caps := Demo.service) Demo.accident
             (Demo.initial Demo.service 0%nat)).2
    = CallSearch (lit "What should I do about a road accident?") 5 :: rest /\
    length rest = 5%nat.
Proof.
  edestruct (fresh_request_calls (caps := Demo.service) Demo.accident
               (Demo.initial Demo.service 0%nat))
    as (base & st3 & resp & rec_text & _ & _ & _ & Hcalls).
  - vm_compute. lia.
  - vm_compute. reflexivity.
  - vm_compute. reflexivity.
  - eexists. split; [exact Hcalls|]. reflexivity.
Defined.

Lemma browser_failure_witness :
  exists resp,
    (process_legal_query (caps := Demo.broken_browser) Demo.accident
       (Demo.initial Demo.broken_browser 0%nat)).1 = Ok resp /\
    resp_cases resp = [].
Proof.
  edestruct (browser_failure_gives_no_cases (caps := Demo.broken_browser) Demo.accident
               (Demo.initial Demo.broken_browser 0%nat)) as (resp & Hrun & Hcases & _).
  - vm_compute. lia.
  - vm_compute. reflexivity.
  - vm_compute. reflexivity.
  - intros w. eexists _, _. reflexivity.
  - exists resp. by split.
Defined.

Lemma follow_up_single_generation_witness :
  exists prompt,
    calls (process_legal_query (caps := Demo.service) Demo.explain
             (serve [Demo.accident] (Demo.initial Demo.service 0%nat))).2
    = calls (serve (caps := Demo.service) [Demo.accident] (Demo.initial Demo.service 0%nat))
      ++ [CallGenerate prompt 200].
Proof.
  edestruct (follow_up_single_generation (caps := Demo.service) Demo.explain
               (serve [Demo.accident] (Demo.initial Demo.service 0%nat)))
    as (ctx & _ & Hcalls).
  - vm_compute. lia.
  - vm_compute. reflexivity.
  - eexists. exact Hcalls.
Defined.

Lemma response_flag_and_session_id_witness :
  exists resp,
    (process_legal_query (caps := Demo.service) Demo.accident
       (Demo.initial Demo.service 0%nat)).1 = Ok resp /\
    resp_session_id resp = lit "s1" /\
    resp_is_follow_up resp = false.
Proof.
  eexists. split; [vm_compute; reflexivity|].
  edestruct (response_flag_and_session_id (caps := Demo.service) Demo.accident
               (Demo.initial Demo.service 0%nat)) as (Hsid & _ & _ & _ & Hfirst).
  - vm_compute. reflexivity.
  - split; [exact Hsid|]. apply Hfirst. reflexivity.
Defined.

Lemma history_pairs_witness :
  exists session turns,
    sessions (serve (caps := Demo.service) [Demo.accident; Demo.explain]
                (Demo.initial Demo.service 0%nat)) !! lit "s1" = Some session /\
    history session
      = concat (map (fun turn => [(user, turn.1); (assistant, turn.2)]) turns).
Proof.
  eexists. edestruct (history_pairs_end_with_context (caps := Demo.service)
                        [Demo.accident; Demo.explain] 0%nat [] (lit "s1"))
    as (turns & Hh & _).
  - vm_compute. reflexivity.
  - exists turns. split; [vm_compute; reflexivity|exact Hh].
Defined.

Lemma stored_turn_bounds_witness :
  exists session ctx,
    sessions (serve (caps := Demo.service) [Demo.accident; Demo.explain]
                (Demo.initial Demo.service 0%nat)) !! lit "s1" = Some session /\
    current_context session = Some ctx /\
    (length (ctx_references ctx) <= 2)%nat.
Proof.
  eexists _, _. split; [vm_compute; reflexivity|]. split; [reflexivity|].
  refine (proj1 (proj2 (proj2 (proj2
            (stored_turn_bounds (caps := Demo.service) [Demo.accident; Demo.explain]
               0%nat [] (lit "s1") _ _ _ _))))).
  - vm_compute. reflexivity.
  - reflexivity.
Defined.

Lemma other_sessions_untouched_witness :
  sessions (process_legal_query (caps := Demo.service) Demo.accident
              (Demo.initial Demo.service 0%nat)).2 !! lit "s2"
  = sessions (Demo.initial Demo.service 0%nat) !! lit "s2".
Proof.
  refine (proj1 (other_sessions_untouched (caps := Demo.service) Demo.accident
                   (Demo.initial Demo.service 0%nat) (lit "s2") _)).
  vm_compute. discriminate.
Defined.

Lemma history_append_only_witness :
  exists session',
    sessions (serve (caps := Demo.service) [Demo.explain; Demo.accident]
                (serve [Demo.accident] (Demo.initial Demo.service 0%nat))) !! lit "s1"
    = Some session'.
Proof.
  edestruct (history_append_only (caps := Demo.service) [Demo.explain; Demo.accident]
               (serve [Demo.accident] (Demo.initial Demo.service 0%nat)) (lit "s1"))
    as (session' & Hlook & _).
  - vm_compute. reflexivity.
  - exists session'. exact Hlook.
Defined.

Lemma blank_query_rejected_witness :
  sanitize_query (req_query Demo.blank) = [] /\
  calls (process_legal_query (caps := Demo.service) Demo.blank
           (Demo.initial Demo.service 0%nat)).2 = [].
Proof.
  destruct (blank_query_rejected (caps := Demo.service) Demo.blank
              (Demo.initial Demo.service 0%nat)) as (Hs & _ & Hcalls).
  - repeat constructor.
  - split; [exact Hs|exact Hcalls].
Defined.

End Examples.
